(** * CueMap TypeScript SDK: a shallow embedding of the client

    The development follows the SDK's [index.ts] as of version 0.6.0: the
    configuration constructor, header injection, the [request] transport
    with its abort timer, the endpoint methods, the multipart [ingestFile]
    path and [CueMapGroundingRetriever.retrieveGrounded].  The earlier
    [src/index.ts] has the same constructor, [getHeaders] and [request].

    JavaScript's runtime is modelled only as far as the client uses it:
    values with their truthiness, [Error] objects and their string
    conversion, the timer table of [setTimeout]/[clearTimeout], abort
    controllers and [fetch].  What the remote engine does is an input of
    every operation (type [remote]). *)

From Stdlib Require Import Floats.PrimFloat.
From stdpp Require Import base option list gmap strings pretty.

Set Warnings "-register-all".
Open Scope string_scope.

(** ** JavaScript values *)

Module Js.

(** A JS [number] is an IEEE-754 binary64 with one observable NaN, which
    is what the kernel's primitive [float] is. *)
Abbreviation number := float.

Inductive value : Type :=
  | VUndefined
  | VNull
  | VBool (b : bool)
  | VNum (n : number)
  | VStr (s : string)
  | VArr (items : list value)
  | VObj (props : gmap string value).

(** ToBoolean on numbers and strings: [0], [-0], [NaN] and the empty
    string are falsy. *)
Definition truthy_number (n : number) : bool :=
  negb (PrimFloat.is_zero n || PrimFloat.is_nan n).

Definition truthy_string (s : string) : bool :=
  match s with EmptyString => false | String _ _ => true end.

Definition truthy (v : value) : bool :=
  match v with
  | VUndefined | VNull => false
  | VBool b => b
  | VNum n => truthy_number n
  | VStr s => truthy_string s
  | VArr _ | VObj _ => true
  end.

Definition VStrs (l : list string) : value := VArr (VStr <$> l).

(** Errors that are not instances of [CueMapError]: the [TypeError],
    [SyntaxError] or [DOMException] the platform raises. *)
Record JsError := { err_name : string; err_message : string }.

(** What a [throw] carries in this program. *)
Inductive thrown : Type :=
  | CueMapError (message : string)
  | Foreign (e : JsError).

Definition instanceof_CueMapError (e : thrown) : bool :=
  match e with CueMapError _ => true | Foreign _ => false end.

(** [Error.prototype.toString]. *)
Definition Error_toString (name message : string) : string :=
  match name, message with
  | EmptyString, _ => message
  | _, EmptyString => name
  | _, _ => name +:+ ": " +:+ message
  end.

(** [`${error}`]; the constructor of [CueMapError] sets [this.name] to
    ['CueMapError']. *)
Definition String_of_thrown (e : thrown) : string :=
  match e with
  | CueMapError message => Error_toString "CueMapError" message
  | Foreign e => Error_toString (err_name e) (err_message e)
  end.

Definition TypeError (message : string) : thrown :=
  Foreign {| err_name := "TypeError"; err_message := message |}.

(** The [DOMException] with which an aborted [fetch] rejects (Node's
    wording of the message). *)
Definition AbortError : JsError :=
  {| err_name := "AbortError"; err_message := "This operation was aborted" |}.

(** Strings.  A JS string is a sequence of UTF-16 code units; it is
    modelled by its bytes in generalised UTF-8, where a surrogate that is
    not half of a pair is the three bytes [ED], [A0]..[BF], [80]..[BF]
    (in UTF-8 proper, [ED] is followed by [80]..[9F]). *)
Fixpoint has_unpaired_surrogate (s : string) : bool :=
  match s with
  | String c (String d _ as rest) =>
      ((Ascii.N_of_ascii c =? 237) && (160 <=? Ascii.N_of_ascii d)
       && (Ascii.N_of_ascii d <=? 191))%N
      || has_unpaired_surrogate rest
  | _ => false
  end.

(** The [URIError] of [encodeURIComponent] (V8's wording). *)
Definition URIError : thrown :=
  Foreign {| err_name := "URIError"; err_message := "URI malformed" |}.

(** [encodeURIComponent] on the bytes of a string: the unreserved
    characters stay, every other byte becomes [%XX]; a string with an
    unpaired surrogate has no encoding ([None]: the built-in throws). *)
Definition unreserved (c : Ascii.ascii) : bool :=
  let n := Ascii.N_of_ascii c in
  ((65 <=? n) && (n <=? 90) || (97 <=? n) && (n <=? 122)
   || (48 <=? n) && (n <=? 57))%N
  || existsb (Ascii.eqb c) (String.list_ascii_of_string "-_.!~*'()").

Definition hex_digit (n : N) : Ascii.ascii :=
  Ascii.ascii_of_N (if (n <? 10)%N then 48 + n else 55 + n)%N.

Definition percent_encode (c : Ascii.ascii) : string :=
  let n := Ascii.N_of_ascii c in
  String (Ascii.ascii_of_N 37)
    (String (hex_digit (n / 16)) (String (hex_digit (n mod 16)) EmptyString)).

Fixpoint percent_encode_all (s : string) : string :=
  match s with
  | EmptyString => EmptyString
  | String c rest =>
      (if unreserved c then String c EmptyString else percent_encode c)
      +:+ percent_encode_all rest
  end.

Definition uri_encode (s : string) : option string :=
  if has_unpaired_surrogate s then None else Some (percent_encode_all s).

End Js.
Import Js.

(** ** Configuration and client context *)

(** [interface CueMapConfig]: every field is optional. *)
Record CueMapConfig := {
  cfg_url : option string;
  cfg_apiKey : option string;
  cfg_projectId : option string;
  cfg_timeout : option number;
}.

(** The empty object literal [{}]. *)
Definition empty_config : CueMapConfig :=
  {| cfg_url := None; cfg_apiKey := None; cfg_projectId := None;
     cfg_timeout := None |}.

(** The private fields of [class CueMap]. *)
Record CueMap := {
  url : string;
  apiKey : option string;
  projectId : option string;
  timeout : number;
}.

(** [a || b] on an optional string and on an optional number. *)
Definition or_string (a : option string) (b : string) : string :=
  match a with
  | Some s => if truthy_string s then s else b
  | None => b
  end.

Definition or_number (a : option number) (b : number) : number :=
  match a with
  | Some n => if truthy_number n then n else b
  | None => b
  end.

(** [constructor(config: CueMapConfig = {})]: an omitted argument is [{}]. *)
Definition constructor (config : option CueMapConfig) : CueMap :=
  let config := default empty_config config in
  {| url := or_string (cfg_url config) "http://localhost:8080";
     apiKey := cfg_apiKey config;
     projectId := cfg_projectId config;
     timeout := or_number (cfg_timeout config) 30000%float |}.

(** ** The world an operation runs in *)

(** A pending [setTimeout]: the controller whose [abort()] the callback
    calls, and the delay it was armed with. *)
Record Timer := { aborts : nat; delay : number }.

(** [FormData]: an ordered list of fields; a [File]/[Blob] by its bytes. *)
Record Blob := { blob_bytes : string }.

Inductive Body : Type :=
  | JsonText (v : value)                   (* [JSON.stringify(v)] *)
  | FormData (fields : list (string * Blob)).

(** The arguments of one [fetch] call. *)
Record FetchCall := {
  fc_url : string;
  fc_method : string;
  fc_headers : gmap string string;
  fc_body : option Body;
  fc_signal : nat;
}.

(** The client object ([this]), the platform's timer table and abort
    controllers, and the log of the requests sent so far. *)
Record World := {
  this : CueMap;
  next_timer : nat;
  timers : gmap nat Timer;
  next_controller : nat;
  aborted : gset nat;
  network : list FetchCall;
}.

Definition set_timers (f : gmap nat Timer → gmap nat Timer) (w : World) : World :=
  {| this := this w; next_timer := next_timer w; timers := f (timers w);
     next_controller := next_controller w; aborted := aborted w;
     network := network w |}.

Definition log (call : FetchCall) (w : World) : World :=
  {| this := this w; next_timer := next_timer w; timers := timers w;
     next_controller := next_controller w; aborted := aborted w;
     network := network w ++ [call] |}.

(** A world with a freshly constructed client and nothing scheduled. *)
Definition boot (c : CueMap) : World :=
  {| this := c; next_timer := 0; timers := ∅; next_controller := 0;
     aborted := ∅; network := [] |}.

(** ** Asynchronous computations

    An [async] function is run to the point where its promise settles or
    is known never to settle; [await] is sequencing. *)

Inductive settled (A : Type) : Type :=
  | Fulfilled (a : A)
  | Rejected (e : thrown)
  | Pending.
Arguments Fulfilled {A} a.
Arguments Rejected {A} e.
Arguments Pending {A}.

Definition Async (A : Type) : Type := World → settled A * World.

#[global] Instance Async_ret : MRet Async := λ A a w, (Fulfilled a, w).

#[global] Instance Async_bind : MBind Async := λ A B f m w,
  match m w with
  | (Fulfilled a, w') => f a w'
  | (Rejected e, w') => (Rejected e, w')
  | (Pending, w') => (Pending, w')
  end.

Definition throw {A} (e : thrown) : Async A := λ w, (Rejected e, w).

(** [try { body } catch (error) { handler }] *)
Definition try_catch {A} (body : Async A) (handler : thrown → Async A) : Async A :=
  λ w, match body w with
       | (Rejected e, w') => handler e w'
       | r => r
       end.

Definition get_this : Async CueMap := λ w, (Fulfilled (this w), w).

(** A call of [encodeURIComponent]: the encoding, or the [URIError]
    thrown. *)
Definition encodeURIComponent (s : string) : Async string :=
  match uri_encode s with
  | Some encoded => mret encoded
  | None => throw URIError
  end.

(** ** Platform primitives *)

(** [new AbortController()] *)
Definition new_AbortController : Async nat := λ w,
  (Fulfilled (next_controller w),
   {| this := this w; next_timer := next_timer w; timers := timers w;
      next_controller := S (next_controller w); aborted := aborted w;
      network := network w |}).

(** [setTimeout(() => controller.abort(), ms)] *)
Definition setTimeout (controller : nat) (ms : number) : Async nat := λ w,
  (Fulfilled (next_timer w),
   {| this := this w; next_timer := S (next_timer w);
      timers := <[next_timer w := {| aborts := controller; delay := ms |}]> (timers w);
      next_controller := next_controller w; aborted := aborted w;
      network := network w |}).

(** [clearTimeout(id)]: a no-op on an id that is not pending. *)
Definition clearTimeout (id : nat) : Async unit := λ w,
  (Fulfilled tt, set_timers (delete id) w).

(** The timers armed against a controller run out: each one leaves the
    timer table and its callback aborts the controller's signal. *)
Definition armed_against (controller : nat) (t : Timer) : bool :=
  bool_decide (aborts t = controller).

Definition expire (controller : nat) (w : World) : World :=
  let fired := filter (λ kt, armed_against controller kt.2 = true) (timers w) in
  {| this := this w; next_timer := next_timer w;
     timers := filter (λ kt, armed_against controller kt.2 = false) (timers w);
     next_controller := next_controller w;
     aborted := if decide (fired = ∅) then aborted w
                else {[controller]} ∪ aborted w;
     network := network w |}.

(** A [Response]: its status line, and what [response.json()] does. *)
Inductive JsonBody : Type :=
  | Decodes (v : value)
  | Malformed (e : JsError)
  | Stalls.

Record Response := { status : N; body : JsonBody }.

(** [response.ok]: the status is in the range 200-299. *)
Definition ok (r : Response) : bool := ((200 <=? status r) && (status r <=? 299))%N.

Definition json (r : Response) : Async value := λ w,
  match body r with
  | Decodes v => (Fulfilled v, w)
  | Malformed e => (Rejected (Foreign e), w)
  | Stalls => (Pending, w)
  end.

(** What the remote side does with one request: it answers before the
    caller's timer runs out, the transport fails, or nothing comes back
    in time. *)
Inductive remote : Type :=
  | Responds (r : Response)
  | Faults (e : JsError)
  | Unresponsive.

(** [fetch(url, init)].  The call is logged; with no answer the timers
    armed against its signal fire, and the promise rejects with an
    [AbortError] once the signal is aborted (and never settles
    otherwise). *)
Definition fetch (env : remote) (call : FetchCall) : Async Response := λ w,
  let w := log call w in
  match env with
  | Responds r => (Fulfilled r, w)
  | Faults e => (Rejected (Foreign e), w)
  | Unresponsive =>
      let w := expire (fc_signal call) w in
      if decide (fc_signal call ∈ aborted w)
      then (Rejected (Foreign AbortError), w)
      else (Pending, w)
  end.

(** ** The transport of [class CueMap] *)

(** [private getHeaders()], as a function of the object it reads; every
    call builds a fresh object. *)
Definition getHeaders (self : CueMap) : gmap string string :=
  let headers : gmap string string := {[ "Content-Type" := "application/json" ]} in
  let headers :=
    match apiKey self with
    | Some k => if truthy_string k then <["X-API-Key" := k]> headers else headers
    | None => headers
    end in
  match projectId self with
  | Some p => if truthy_string p then <["X-Project-ID" := p]> headers else headers
  | None => headers
  end.

(** [private async request<T>(method, path, body?)] *)
Definition request (env : remote) (method path : string) (payload : value)
  : Async value :=
  controller ← new_AbortController;
  self ← get_this;
  timeoutId ← setTimeout controller (timeout self);
  try_catch
    (self ← get_this;
     response ← fetch env
       {| fc_url := url self +:+ path;
          fc_method := method;
          fc_headers := getHeaders self;
          fc_body := if truthy payload then Some (JsonText payload) else None;
          fc_signal := controller |};
     clearTimeout timeoutId;;
     (if negb (ok response) then
        if (status response =? 401)%N
        then throw (CueMapError "Invalid API key")
        else throw (CueMapError ("Request failed: " +:+ pretty (status response)))
      else mret tt);;
     json response)
    (λ error,
       clearTimeout timeoutId;;
       if instanceof_CueMapError error then throw error
       else throw (CueMapError ("Request failed: " +:+ String_of_thrown error))).

(** [async ingestFile(file)]: the multipart path, which does not go
    through [request]. *)
Definition ingestFile (env : remote) (file : Blob) : Async value :=
  let formData := FormData [("file", file)] in
  self ← get_this;
  let headers := getHeaders self in
  let headers := delete "Content-Type" headers in
  controller ← new_AbortController;
  self ← get_this;
  timeoutId ← setTimeout controller (timeout self);
  try_catch
    (self ← get_this;
     response ← fetch env
       {| fc_url := url self +:+ "/ingest/file";
          fc_method := "POST";
          fc_headers := headers;
          fc_body := Some formData;
          fc_signal := controller |};
     clearTimeout timeoutId;;
     (if negb (ok response)
      then throw (CueMapError ("Request failed: " +:+ pretty (status response)))
      else mret tt);;
     json response)
    (λ error,
       clearTimeout timeoutId;;
       throw (CueMapError ("Request failed: " +:+ String_of_thrown error))).

(** ** Endpoint methods of [class CueMap] *)

(** Property read [o.k]: [undefined] when the property is missing or [o]
    is a primitive, a [TypeError] on [null] and [undefined] (V8's
    wording). *)
Definition get_prop (o : value) (k : string) : Async value :=
  match o with
  | VObj props => mret (default VUndefined (props !! k))
  | VNull =>
      throw (TypeError ("Cannot read properties of null (reading '" +:+ k +:+ "')"))
  | VUndefined =>
      throw (TypeError ("Cannot read properties of undefined (reading '" +:+ k +:+ "')"))
  | _ => mret VUndefined
  end.

(** [try { await call; return true; } catch { return false; }] *)
Definition best_effort_call (call : Async value) : Async value :=
  try_catch (call;; mret (VBool true)) (λ _, mret (VBool false)).

(** The object literal [add] sends. *)
Definition add_payload (content : string) (cues : list string)
    (metadata : option (gmap string value))
    (disableTemporalChunking : bool) : gmap string value :=
  <["content" := VStr content]>
  (<["cues" := VStrs cues]>
  (<["metadata" := VObj (default ∅ metadata)]>
  {["disable_temporal_chunking" := VBool disableTemporalChunking]})).

Definition add (env : remote) (content : string) (cues : list string)
    (metadata : option (gmap string value))
    (disableTemporalChunking : option bool) : Async value :=
  let disableTemporalChunking := default false disableTemporalChunking in
  response ← request env "POST" "/memories"
    (VObj (add_payload content cues metadata disableTemporalChunking));
  get_prop response "id".

(** The object literal with which [recall] starts its payload, and the
    conditional assignments that follow it. *)
Definition recall_payload (queryText : option string) (cues : option (list string))
    (projects : option (list string)) (limit : number) (autoReinforce : bool)
    (minIntersection : option number) (explain : bool)
    (disablePatternCompletion disableSalienceBias
     disableSystemsConsolidation : bool) : gmap string value :=
  let payload : gmap string value :=
    <["limit" := VNum limit]>
    (<["auto_reinforce" := VBool autoReinforce]>
    (<["explain" := VBool explain]>
    (<["disable_pattern_completion" := VBool disablePatternCompletion]>
    (<["disable_salience_bias" := VBool disableSalienceBias]>
    {["disable_systems_consolidation" := VBool disableSystemsConsolidation]})))) in
  let payload :=
    match cues with
    | Some cs => <["cues" := VStrs cs]> payload
    | None => payload
    end in
  let payload :=
    match queryText with
    | Some q => if truthy_string q then <["query_text" := VStr q]> payload else payload
    | None => payload
    end in
  let payload :=
    match minIntersection with
    | Some n => <["min_intersection" := VNum n]> payload
    | None => payload
    end in
  match projects with
  | Some ps => <["projects" := VStrs ps]> payload
  | None => payload
  end.

Definition recall (env : remote) (queryText : option string)
    (cues projects : option (list string)) (limit : option number)
    (autoReinforce : option bool) (minIntersection : option number)
    (explain disablePatternCompletion disableSalienceBias
     disableSystemsConsolidation : option bool) : Async value :=
  let limit := default 10%float limit in
  let autoReinforce := default false autoReinforce in
  let explain := default false explain in
  let disablePatternCompletion := default false disablePatternCompletion in
  let disableSalienceBias := default false disableSalienceBias in
  let disableSystemsConsolidation := default false disableSystemsConsolidation in
  let payload :=
    recall_payload queryText cues projects limit autoReinforce minIntersection
      explain disablePatternCompletion disableSalienceBias
      disableSystemsConsolidation in
  response ← request env "POST" "/recall" (VObj payload);
  mret response.

Definition listProjects (env : remote) : Async value :=
  request env "GET" "/projects" VUndefined.

Definition deleteProject (env : remote) (projectId : string) : Async value :=
  best_effort_call (request env "DELETE" ("/projects/" +:+ projectId) VUndefined).

Definition addAlias (env : remote) (from to : string) (weight : option number)
  : Async value :=
  let weight := default 1%float weight in
  best_effort_call
    (request env "POST" "/aliases"
       (VObj (<["from" := VStr from]> (<["to" := VStr to]>
              {["weight" := VNum weight]})))).

Definition getAliases (env : remote) (cue : option string) : Async value :=
  path ← match cue with
         | Some c =>
             if truthy_string c
             then encoded ← encodeURIComponent c; mret ("/aliases?cue=" +:+ encoded)
             else mret "/aliases"
         | None => mret "/aliases"
         end;
  request env "GET" path VUndefined.

Definition mergeAliases (env : remote) (cues : list string) (to : string)
  : Async value :=
  best_effort_call
    (request env "POST" "/aliases/merge"
       (VObj (<["cues" := VStrs cues]> {["to" := VStr to]}))).

Definition reinforce (env : remote) (memoryId : string) (cues : list string)
  : Async value :=
  best_effort_call
    (request env "PATCH" ("/memories/" +:+ memoryId +:+ "/reinforce")
       (VObj {["cues" := VStrs cues]})).

Definition get (env : remote) (memoryId : string) : Async value :=
  request env "GET" ("/memories/" +:+ memoryId) VUndefined.

Definition stats (env : remote) : Async value :=
  request env "GET" "/stats" VUndefined.

(** The payload of [recallGrounded]: the object literal, then
    [if (projects) payload.projects = projects]. *)
Definition recallGrounded_payload (query : string) (tokenBudget limit : number)
    (projects : option (list string))
    (disablePatternCompletion disableSalienceBias
     disableSystemsConsolidation : bool) : gmap string value :=
  let payload : gmap string value :=
    <["query_text" := VStr query]>
    (<["token_budget" := VNum tokenBudget]>
    (<["limit" := VNum limit]>
    (<["disable_pattern_completion" := VBool disablePatternCompletion]>
    (<["disable_salience_bias" := VBool disableSalienceBias]>
    {["disable_systems_consolidation" := VBool disableSystemsConsolidation]})))) in
  match projects with
  | Some ps => <["projects" := VStrs ps]> payload
  | None => payload
  end.

Definition recallGrounded (env : remote) (query : string)
    (tokenBudget limit : option number) (projects : option (list string))
    (disablePatternCompletion disableSalienceBias
     disableSystemsConsolidation : option bool) : Async value :=
  let tokenBudget := default 500%float tokenBudget in
  let limit := default 10%float limit in
  let disablePatternCompletion := default false disablePatternCompletion in
  let disableSalienceBias := default false disableSalienceBias in
  let disableSystemsConsolidation := default false disableSystemsConsolidation in
  request env "POST" "/recall/grounded"
    (VObj (recallGrounded_payload query tokenBudget limit projects
             disablePatternCompletion disableSalienceBias
             disableSystemsConsolidation)).

Definition lexiconWire (env : remote) (token canonical : string) : Async value :=
  request env "POST" "/lexicon/wire"
    (VObj (<["token" := VStr token]> {["canonical" := VStr canonical]})).

Definition lexiconInspect (env : remote) (cue : string) : Async value :=
  encoded ← encodeURIComponent cue;
  request env "GET" ("/lexicon/inspect/" +:+ encoded) VUndefined.

Definition lexiconGraph (env : remote) : Async value :=
  request env "GET" "/lexicon/graph" VUndefined.

Definition lexiconSynonyms (env : remote) (cue : string) : Async value :=
  encoded ← encodeURIComponent cue;
  request env "GET" ("/lexicon/synonyms/" +:+ encoded) VUndefined.

Definition lexiconDelete (env : remote) (memoryId : string) : Async value :=
  best_effort_call
    (request env "DELETE" ("/lexicon/entry/" +:+ memoryId) VUndefined).

Definition ingestUrl (env : remote) (url : string) : Async value :=
  request env "POST" "/ingest/url" (VObj {["url" := VStr url]}).

Definition ingestContent (env : remote) (content : string)
    (filename : option string) : Async value :=
  let filename := default "content.txt" filename in
  request env "POST" "/ingest/content"
    (VObj (<["content" := VStr content]> {["filename" := VStr filename]})).

Definition jobsStatus (env : remote) : Async value :=
  request env "GET" "/jobs/status" VUndefined.

(** ** [class CueMapGroundingRetriever] *)

(** The object [retrieveGrounded] returns, built from the decoded
    response. *)
Definition assemble (response : value) : Async value :=
  verified_context ← get_prop response "verified_context";
  proof ← get_prop response "proof";
  proof' ← get_prop response "proof";
  selected ← get_prop proof' "selected";
  mret (VObj (<["verified_context_block" := verified_context]>
             (<["grounding_proof" := proof]>
             {["selected_memories" := selected]}))).

Definition retrieveGrounded (env : remote) (queryText : string)
    (tokenBudget limit : option number) (projects : option (list string))
    (disablePatternCompletion : option bool) : Async value :=
  let tokenBudget := default 500%float tokenBudget in
  let limit := default 10%float limit in
  let disablePatternCompletion := default false disablePatternCompletion in
  response ← recallGrounded env queryText (Some tokenBudget) (Some limit)
    projects (Some disablePatternCompletion) None None;
  assemble response.

(** ** The public surface as data *)

(** One constructor per public method, with the method's arguments. *)
Inductive operation : Type :=
  | Add (content : string) (cues : list string)
      (metadata : option (gmap string value))
      (disableTemporalChunking : option bool)
  | Recall (queryText : option string) (cues projects : option (list string))
      (limit : option number) (autoReinforce : option bool)
      (minIntersection : option number)
      (explain disablePatternCompletion disableSalienceBias
       disableSystemsConsolidation : option bool)
  | ListProjects
  | DeleteProject (projectId : string)
  | AddAlias (from to : string) (weight : option number)
  | GetAliases (cue : option string)
  | MergeAliases (cues : list string) (to : string)
  | Reinforce (memoryId : string) (cues : list string)
  | Get (memoryId : string)
  | Stats
  | RecallGrounded (query : string) (tokenBudget limit : option number)
      (projects : option (list string))
      (disablePatternCompletion disableSalienceBias
       disableSystemsConsolidation : option bool)
  | LexiconWire (token canonical : string)
  | LexiconInspect (cue : string)
  | LexiconGraph
  | LexiconSynonyms (cue : string)
  | LexiconDelete (memoryId : string)
  | IngestUrl (url : string)
  | IngestContent (content : string) (filename : option string)
  | IngestFile (file : Blob)
  | JobsStatus
  | RetrieveGrounded (queryText : string) (tokenBudget limit : option number)
      (projects : option (list string)) (disablePatternCompletion : option bool).

Definition perform (op : operation) (env : remote) : Async value :=
  match op with
  | Add content cues metadata dtc => add env content cues metadata dtc
  | Recall q cues projects limit ar mi ex dpc dsb dsc =>
      recall env q cues projects limit ar mi ex dpc dsb dsc
  | ListProjects => listProjects env
  | DeleteProject projectId => deleteProject env projectId
  | AddAlias from to weight => addAlias env from to weight
  | GetAliases cue => getAliases env cue
  | MergeAliases cues to => mergeAliases env cues to
  | Reinforce memoryId cues => reinforce env memoryId cues
  | Get memoryId => get env memoryId
  | Stats => stats env
  | RecallGrounded query tb limit projects dpc dsb dsc =>
      recallGrounded env query tb limit projects dpc dsb dsc
  | LexiconWire token canonical => lexiconWire env token canonical
  | LexiconInspect cue => lexiconInspect env cue
  | LexiconGraph => lexiconGraph env
  | LexiconSynonyms cue => lexiconSynonyms env cue
  | LexiconDelete memoryId => lexiconDelete env memoryId
  | IngestUrl url => ingestUrl env url
  | IngestContent content filename => ingestContent env content filename
  | IngestFile file => ingestFile env file
  | JobsStatus => jobsStatus env
  | RetrieveGrounded q tb limit projects dpc =>
      retrieveGrounded env q tb limit projects dpc
  end.

(** The operations whose failures are reported as [false]. *)
Definition best_effort (op : operation) : bool :=
  match op with
  | Reinforce _ _ | DeleteProject _ | AddAlias _ _ _ | MergeAliases _ _
  | LexiconDelete _ => true
  | _ => false
  end.

(** A session: operations issued one after the other, each with what the
    remote does to it. *)
Fixpoint session (ops : list (operation * remote)) (w : World) : World :=
  match ops with
  | [] => w
  | (op, env) :: rest => session rest (perform op env w).2
  end.

(** ** Typed views of the engine's grounded response *)

Record SelectedItem := {
  sel_memory_id : string;
  sel_content : string;
  sel_score : number;
  sel_intersection_count : number;
  sel_recency_component : number;
  sel_reinforcement_component : number;
  sel_match_integrity : number;
  sel_source : string;
  sel_timestamp : string;
  sel_estimated_tokens : number;
  sel_why : string;
}.

Record ExcludedItem := {
  exc_memory_id : string;
  exc_score : number;
  exc_reason : string;
}.

Record GroundingProof := {
  trace_id : string;
  query_text : string;
  normalized_query : list string;
  expanded_cues : list (string * number);
  token_budget : number;
  selected : list SelectedItem;
  excluded_top : list ExcludedItem;
}.

Record RecallGroundedResponse := {
  verified_context : string;
  proof : GroundingProof;
  engine_latency_ms : number;
}.

(** The JSON values that [response.json()] yields for a response of
    these types. *)
Definition SelectedItem_value (s : SelectedItem) : value :=
  VObj (<["memory_id" := VStr (sel_memory_id s)]>
       (<["content" := VStr (sel_content s)]>
       (<["score" := VNum (sel_score s)]>
       (<["intersection_count" := VNum (sel_intersection_count s)]>
       (<["recency_component" := VNum (sel_recency_component s)]>
       (<["reinforcement_component" := VNum (sel_reinforcement_component s)]>
       (<["match_integrity" := VNum (sel_match_integrity s)]>
       (<["source" := VStr (sel_source s)]>
       (<["timestamp" := VStr (sel_timestamp s)]>
       (<["estimated_tokens" := VNum (sel_estimated_tokens s)]>
       {["why" := VStr (sel_why s)]})))))))))).

Definition ExcludedItem_value (e : ExcludedItem) : value :=
  VObj (<["memory_id" := VStr (exc_memory_id e)]>
       (<["score" := VNum (exc_score e)]>
       {["reason" := VStr (exc_reason e)]})).

Definition GroundingProof_value (p : GroundingProof) : value :=
  VObj (<["trace_id" := VStr (trace_id p)]>
       (<["query_text" := VStr (query_text p)]>
       (<["normalized_query" := VStrs (normalized_query p)]>
       (<["expanded_cues" :=
            VArr ((λ cs : string * number, VArr [VStr cs.1; VNum cs.2])
                  <$> expanded_cues p)]>
       (<["token_budget" := VNum (token_budget p)]>
       (<["selected" := VArr (SelectedItem_value <$> selected p)]>
       {["excluded_top" := VArr (ExcludedItem_value <$> excluded_top p)]})))))).

Definition RecallGroundedResponse_value (r : RecallGroundedResponse) : value :=
  VObj (<["verified_context" := VStr (verified_context r)]>
       (<["proof" := GroundingProof_value (proof r)]>
       {["engine_latency_ms" := VNum (engine_latency_ms r)]})).

(** ** Vocabulary of the statements *)

(** The world in which a transport issues its [fetch]: a new controller
    exists and the timer against it is pending, armed with the client's
    [timeout]. *)
Definition armed (w : World) : World :=
  {| this := this w; next_timer := S (next_timer w);
     timers := <[next_timer w := {| aborts := next_controller w;
                                    delay := timeout (this w) |}]> (timers w);
     next_controller := S (next_controller w); aborted := aborted w;
     network := network w |}.

(** The [fetch] arguments of [request] and of [ingestFile]. *)
Definition request_call (self : CueMap) (controller : nat)
    (method path : string) (payload : value) : FetchCall :=
  {| fc_url := url self +:+ path; fc_method := method;
     fc_headers := getHeaders self;
     fc_body := if truthy payload then Some (JsonText payload) else None;
     fc_signal := controller |}.

Definition ingest_call (self : CueMap) (controller : nat) (file : Blob)
  : FetchCall :=
  {| fc_url := url self +:+ "/ingest/file"; fc_method := "POST";
     fc_headers := delete "Content-Type" (getHeaders self);
     fc_body := Some (FormData [("file", file)]);
     fc_signal := controller |}.

(** [new CueMapError(`Request failed: ${error}`)] *)
Definition wrapped (error : thrown) : thrown :=
  CueMapError ("Request failed: " +:+ String_of_thrown error).

(** What each public method puts on the wire (section 6 of the
    specification): a JSON request through [request], or the multipart
    upload; or nothing, when the method throws while it builds the
    path. *)
Inductive wire : Type :=
  | Json (method path : string) (payload : value)
  | Upload (file : Blob)
  | Throws (e : thrown).

Definition endpoint (op : operation) : wire :=
  match op with
  | Add content cues metadata dtc =>
      Json "POST" "/memories"
        (VObj (add_payload content cues metadata (default false dtc)))
  | Recall q cues projects limit ar mi ex dpc dsb dsc =>
      Json "POST" "/recall"
        (VObj (recall_payload q cues projects (default 10%float limit)
                 (default false ar) mi (default false ex) (default false dpc)
                 (default false dsb) (default false dsc)))
  | ListProjects => Json "GET" "/projects" VUndefined
  | DeleteProject projectId => Json "DELETE" ("/projects/" +:+ projectId) VUndefined
  | AddAlias from to weight =>
      Json "POST" "/aliases"
        (VObj (<["from" := VStr from]> (<["to" := VStr to]>
               {["weight" := VNum (default 1%float weight)]})))
  | GetAliases cue =>
      match cue with
      | Some c =>
          if truthy_string c then
            match uri_encode c with
            | Some encoded => Json "GET" ("/aliases?cue=" +:+ encoded) VUndefined
            | None => Throws URIError
            end
          else Json "GET" "/aliases" VUndefined
      | None => Json "GET" "/aliases" VUndefined
      end
  | MergeAliases cues to =>
      Json "POST" "/aliases/merge"
        (VObj (<["cues" := VStrs cues]> {["to" := VStr to]}))
  | Reinforce memoryId cues =>
      Json "PATCH" ("/memories/" +:+ memoryId +:+ "/reinforce")
        (VObj {["cues" := VStrs cues]})
  | Get memoryId => Json "GET" ("/memories/" +:+ memoryId) VUndefined
  | Stats => Json "GET" "/stats" VUndefined
  | RecallGrounded query tb limit projects dpc dsb dsc =>
      Json "POST" "/recall/grounded"
        (VObj (recallGrounded_payload query (default 500%float tb)
                 (default 10%float limit) projects (default false dpc)
                 (default false dsb) (default false dsc)))
  | LexiconWire token canonical =>
      Json "POST" "/lexicon/wire"
        (VObj (<["token" := VStr token]> {["canonical" := VStr canonical]}))
  | LexiconInspect cue =>
      match uri_encode cue with
      | Some encoded => Json "GET" ("/lexicon/inspect/" +:+ encoded) VUndefined
      | None => Throws URIError
      end
  | LexiconGraph => Json "GET" "/lexicon/graph" VUndefined
  | LexiconSynonyms cue =>
      match uri_encode cue with
      | Some encoded => Json "GET" ("/lexicon/synonyms/" +:+ encoded) VUndefined
      | None => Throws URIError
      end
  | LexiconDelete memoryId =>
      Json "DELETE" ("/lexicon/entry/" +:+ memoryId) VUndefined
  | IngestUrl url => Json "POST" "/ingest/url" (VObj {["url" := VStr url]})
  | IngestContent content filename =>
      Json "POST" "/ingest/content"
        (VObj (<["content" := VStr content]>
               {["filename" := VStr (default "content.txt" filename)]}))
  | IngestFile file => Upload file
  | JobsStatus => Json "GET" "/jobs/status" VUndefined
  | RetrieveGrounded q tb limit projects dpc =>
      Json "POST" "/recall/grounded"
        (VObj (recallGrounded_payload q (default 500%float tb)
                 (default 10%float limit) projects (default false dpc)
                 false false))
  end.

(** The transport invocation underneath an operation, when it gets
    that far. *)
Definition transport (op : operation) (env : remote) : Async value :=
  match endpoint op with
  | Json method path payload => request env method path payload
  | Upload file => ingestFile env file
  | Throws e => throw e
  end.

(** The [fetch] call an operation issues from world [w], if any. *)
Definition call_of (op : operation) (w : World) : option FetchCall :=
  match endpoint op with
  | Json method path payload =>
      Some (request_call (this w) (next_controller w) method path payload)
  | Upload file => Some (ingest_call (this w) (next_controller w) file)
  | Throws _ => None
  end.

Definition sends_request (op : operation) : bool :=
  match endpoint op with Throws _ => false | _ => true end.

(** A computation relates the world it starts in to the one it leaves. *)
Definition preserves (R : relation World) {A} (m : Async A) : Prop :=
  ∀ w, R w (m w).2.

Definition same_this : relation World := λ w w', this w' = this w.

(** Timer ids and controller ids are handed out in increasing order, so
    nothing pending refers to an id not yet allocated. *)
Definition wf (w : World) : Prop :=
  ∀ t T, timers w !! t = Some T →
         t < next_timer w ∧ aborts T < next_controller w.

Definition timers_restored : relation World := λ w w',
  wf w → wf w' ∧ timers w' = timers w.

(** The failure taxonomy of section 7 of the specification, by cause. *)
Inductive failure_kind : Type :=
  | Authentication
  | RequestFailed
  | TransportFailure
  | Timeout.

Definition cause_of (env : remote) : option failure_kind :=
  match env with
  | Responds r =>
      if ok r then
        match body r with
        | Malformed _ => Some TransportFailure
        | _ => None
        end
      else if (status r =? 401)%N then Some Authentication
      else Some RequestFailed
  | Faults _ => Some TransportFailure
  | Unresponsive => Some Timeout
  end.

(** The "disable" flags the SDK has across its methods. *)
Definition sdk_disable_flags : list string :=
  ["disable_temporal_chunking"; "disable_pattern_completion";
   "disable_salience_bias"; "disable_systems_consolidation"].

Definition disable_flags_in (payload : gmap string value) : gmap string value :=
  filter (λ kv, String.prefix "disable_" kv.1 = true) payload.

(** ** The earlier [index.ts] ([src/index.ts])

    The earlier version of the client has the same constructor,
    [getHeaders], [request], [reinforce], [get] and [stats]; its [add]
    and [recall] differ. *)

Module V05.

Definition add_payload (content : string) (cues : list string)
    (metadata : option (gmap string value)) : gmap string value :=
  <["content" := VStr content]>
  (<["cues" := VStrs cues]>
  {["metadata" := VObj (default ∅ metadata)]}).

Definition add (env : remote) (content : string) (cues : list string)
    (metadata : option (gmap string value)) : Async value :=
  response ← request env "POST" "/memories"
    (VObj (add_payload content cues metadata));
  get_prop response "id".

Definition recall_payload (cues : list string) (limit : number)
    (autoReinforce : bool) (minIntersection : option number)
    (projects : option (list string)) : gmap string value :=
  let payload : gmap string value :=
    <["cues" := VStrs cues]>
    (<["limit" := VNum limit]>
    {["auto_reinforce" := VBool autoReinforce]}) in
  let payload :=
    match minIntersection with
    | Some n => <["min_intersection" := VNum n]> payload
    | None => payload
    end in
  match projects with
  | Some ps => <["projects" := VStrs ps]> payload
  | None => payload
  end.

Definition recall (env : remote) (cues : list string) (limit : option number)
    (autoReinforce : option bool) (minIntersection : option number)
    (projects : option (list string)) : Async value :=
  let limit := default 10%float limit in
  let autoReinforce := default false autoReinforce in
  response ← request env "POST" "/recall"
    (VObj (recall_payload cues limit autoReinforce minIntersection projects));
  get_prop response "results".

End V05.

(** ** Vocabulary of the further statements *)

(** What the property read [o.k] settles to; it does not touch the world. *)
Definition member (o : value) (k : string) : settled value :=
  (get_prop o k (boot (constructor None))).1.

(** The operations that hand the decoded answer to the caller as it is. *)
Definition passes_through (op : operation) : bool :=
  match op with
  | Recall _ _ _ _ _ _ _ _ _ _ | ListProjects | GetAliases _ | Get _ | Stats
  | RecallGrounded _ _ _ _ _ _ _ | LexiconWire _ _ | LexiconInspect _
  | LexiconGraph | LexiconSynonyms _ | IngestUrl _ | IngestContent _ _
  | IngestFile _ | JobsStatus => true
  | _ => false
  end.

Definition timed_out (env : remote) : bool :=
  match env with Unresponsive => true | _ => false end.

(** What [retrieveGrounded] makes of a decoded answer. *)
Definition assembled (response : value) : settled value :=
  (assemble response (boot (constructor None))).1.

(** What an operation makes of the way its transport settled. *)
Definition finish (op : operation) (answer : settled value) : settled value :=
  match answer with
  | Rejected e => if best_effort op then Fulfilled (VBool false) else Rejected e
  | Pending => Pending
  | Fulfilled v =>
      if best_effort op then Fulfilled (VBool true)
      else match op with
           | Add _ _ _ _ => member v "id"
           | RetrieveGrounded _ _ _ _ _ => assembled v
           | _ => Fulfilled v
           end
  end.

(** The operations that read a property of the decoded answer. *)
Definition reads_answer (op : operation) : bool :=
  match op with
  | Add _ _ _ _ | RetrieveGrounded _ _ _ _ _ => true
  | _ => false
  end.

(** The [try] blocks of [request] and [ingestFile], run with the
    controller and the timer their method has set up. *)
Definition request_attempt (env : remote) (method path : string)
    (payload : value) (controller timeoutId : nat) : Async value :=
  self ← get_this;
  response ← fetch env
    {| fc_url := url self +:+ path;
       fc_method := method;
       fc_headers := getHeaders self;
       fc_body := if truthy payload then Some (JsonText payload) else None;
       fc_signal := controller |};
  clearTimeout timeoutId;;
  (if negb (ok response) then
     if (status response =? 401)%N
     then throw (CueMapError "Invalid API key")
     else throw (CueMapError ("Request failed: " +:+ pretty (status response)))
   else mret tt);;
  json response.

Definition ingestFile_attempt (env : remote) (headers : gmap string string)
    (file : Blob) (controller timeoutId : nat) : Async value :=
  self ← get_this;
  response ← fetch env
    {| fc_url := url self +:+ "/ingest/file";
       fc_method := "POST";
       fc_headers := headers;
       fc_body := Some (FormData [("file", file)]);
       fc_signal := controller |};
  clearTimeout timeoutId;;
  (if negb (ok response)
   then throw (CueMapError ("Request failed: " +:+ pretty (status response)))
   else mret tt);;
  json response.

(** ** Telling the failures apart

    The errors carry a message only.  [kind_of] is what a caller can
    compute from it. *)

Definition is_digit (c : Ascii.ascii) : bool :=
  let n := Ascii.N_of_ascii c in ((48 <=? n) && (n <=? 57))%N.


Definition starts_with_digit (s : string) : bool :=
  match s with String c _ => is_digit c | EmptyString => false end.



(** ** Sessions and answers *)

(** The operations of a session that send a request. *)
Definition sending (ops : list (operation * remote)) : list (operation * remote) :=
  List.filter (λ oe, sends_request oe.1) ops.

(** What a request that was sent settles to, by what the remote does. *)
Definition answer_of (sent : wire) (env : remote) : settled value :=
  match env with
  | Responds r =>
      if ok r then
        match body r with
        | Decodes v => Fulfilled v
        | Malformed e => Rejected (wrapped (Foreign e))
        | Stalls => Pending
        end
      else match sent with
           | Upload _ =>
               Rejected (wrapped (CueMapError ("Request failed: " +:+ pretty (status r))))
           | _ =>
               if (status r =? 401)%N then Rejected (CueMapError "Invalid API key")
               else Rejected (CueMapError ("Request failed: " +:+ pretty (status r)))
           end
  | Faults e => Rejected (wrapped (Foreign e))
  | Unresponsive => Rejected (wrapped (Foreign AbortError))
  end.

(** The three bytes of the unpaired surrogate [U+D800]. *)
Definition lone_surrogate : string :=
  String (Ascii.ascii_of_N 237)
    (String (Ascii.ascii_of_N 160) (String (Ascii.ascii_of_N 128) EmptyString)).

(** * Properties *)


#[local] Arguments expire : simpl never.
#[local] Arguments ok : simpl never.
#[local] Arguments pretty : simpl never.
#[local] Arguments status : simpl never.
#[local] Arguments getHeaders : simpl never.
#[local] Arguments String_of_thrown : simpl never.

(** ** The model on the specification's scenarios *)

Example uri_encode_sample : uri_encode "a b/c?d" = Some "a%20b%2Fc%3Fd".
Proof. reflexivity. Qed.

(** A cue with an unpaired surrogate: [lexiconInspect] rejects with the
    [URIError] of [encodeURIComponent] and sends nothing. *)
Example lexiconInspect_unpaired_surrogate :
  lexiconInspect (Responds {| status := 200; body := Decodes VNull |})
    lone_surrogate (boot (constructor None))
  = (Rejected URIError, boot (constructor None)).
Proof. reflexivity. Qed.

(** End-to-end scenario 1: [add('The server password is abc123', [])]
    against an engine answering [{id: 'm1'}]. *)
Example add_scenario :
  (add (Responds {| status := 200; body := Decodes (VObj {[ "id" := VStr "m1" ]}) |})
       "The server password is abc123" [] None None (boot (constructor None))).1
  = Fulfilled (VStr "m1").
Proof. vm_compute. reflexivity. Qed.

(** A JSON [null] answer to [add] surfaces the raw [TypeError] of
    [response.id]. *)
Example add_null_answer :
  (add (Responds {| status := 200; body := Decodes VNull |})
       "content" ["cue1"] None None (boot (constructor None))).1
  = Rejected (TypeError "Cannot read properties of null (reading 'id')").
Proof. vm_compute. reflexivity. Qed.

Example getAliases_url :
  fc_url <$> network
    (getAliases Unresponsive (Some "new york") (boot (constructor None))).2
  = ["http://localhost:8080/aliases?cue=new%20york"].
Proof. vm_compute. reflexivity. Qed.

Example status_500_with_json_error_body :
  (request (Responds {| status := 500;
                        body := Decodes (VObj {[ "error" := VStr "boom" ]}) |})
           "GET" "/stats" VUndefined (boot (constructor None))).1
  = Rejected (CueMapError "Request failed: 500").
Proof. vm_compute. reflexivity. Qed.

(** End-to-end scenario 3: [retrieveGrounded('Why is payment failing?',
    500)] against an engine whose proof selects memory [m2]. *)
Example retrieveGrounded_scenario :
  let item :=
    {| sel_memory_id := "m2"; sel_content := "payment gateway timeout";
       sel_score := 0.75%float; sel_intersection_count := 2%float;
       sel_recency_component := 0.5%float;
       sel_reinforcement_component := 0.25%float;
       sel_match_integrity := 1%float; sel_source := "memory";
       sel_timestamp := "2026-01-19T00:00:00Z";
       sel_estimated_tokens := 120%float; sel_why := "matched payment" |} in
  let response :=
    {| verified_context := "[VERIFIED CONTEXT] payment gateway timeout";
       proof := {| trace_id := "t1"; query_text := "Why is payment failing?";
                   normalized_query := ["payment"; "failing"];
                   expanded_cues := [("payment", 1%float)];
                   token_budget := 500%float; selected := [item];
                   excluded_top := [] |};
       engine_latency_ms := 4%float |} in
  match (retrieveGrounded
           (Responds {| status := 200;
                        body := Decodes (RecallGroundedResponse_value response) |})
           "Why is payment failing?" (Some 500%float) None None None
           (boot (constructor None))).1 with
  | Fulfilled (VObj artifact) =>
      match artifact !! "selected_memories" with
      | Some (VArr (VObj first :: _)) => first !! "memory_id"
      | _ => None
      end
  | _ => None
  end = Some (VStr "m2").
Proof. vm_compute. reflexivity. Qed.

(** ** Running asynchronous computations *)

Section Async_laws.
Context {A B : Type}.
Implicit Types (m : Async A) (f : A → Async B) (w : World).

Lemma run_bind m f w :
  (m ≫= f) w =
  match m w with
  | (Fulfilled a, w') => f a w'
  | (Rejected e, w') => (Rejected e, w')
  | (Pending, w') => (Pending, w')
  end.
Proof. reflexivity. Qed.

Lemma bind_fulfilled m f w a w' :
  m w = (Fulfilled a, w') → (m ≫= f) w = f a w'.
Proof. intros H. by rewrite run_bind, H. Qed.

Lemma bind_rejected m f w e w' :
  m w = (Rejected e, w') → (m ≫= f) w = (Rejected e, w').
Proof. intros H. by rewrite run_bind, H. Qed.

Lemma bind_pending m f w w' :
  m w = (Pending, w') → (m ≫= f) w = (Pending, w').
Proof. intros H. by rewrite run_bind, H. Qed.

(** A continuation that leaves the world alone does not change where
    the computation ends. *)
Lemma bind_world m f w :
  (∀ a w', (f a w').2 = w') → ((m ≫= f) w).2 = (m w).2.
Proof.
  intros Hf. rewrite run_bind. destruct (m w) as [[a|e|] w']; simpl; auto.
Qed.

End Async_laws.

Lemma best_effort_call_rejected call w e w' :
  call w = (Rejected e, w') →
  best_effort_call call w = (Fulfilled (VBool false), w').
Proof.
  intros H. unfold best_effort_call, try_catch. by rewrite (bind_rejected _ _ _ _ _ H).
Qed.

Lemma best_effort_call_fulfilled call w v w' :
  call w = (Fulfilled v, w') →
  best_effort_call call w = (Fulfilled (VBool true), w').
Proof.
  intros H. unfold best_effort_call, try_catch. by rewrite (bind_fulfilled _ _ _ _ _ H).
Qed.

Lemma best_effort_call_world call w :
  (best_effort_call call w).2 = (call w).2.
Proof.
  unfold best_effort_call, try_catch. rewrite run_bind.
  by destruct (call w) as [[v|e|] w'].
Qed.

(** ** Composition of world relations *)

Section Preservation.
Context (R : relation World) `{!PreOrder R}.

Lemma preserves_ret {A} (a : A) : preserves R (mret a).
Proof. intros w. reflexivity. Qed.

Lemma preserves_throw {A} e : preserves R (@throw A e).
Proof. intros w. reflexivity. Qed.

Lemma preserves_bind {A B} (m : Async A) (f : A → Async B) :
  preserves R m → (∀ a, preserves R (f a)) → preserves R (m ≫= f).
Proof.
  intros Hm Hf w. rewrite run_bind. specialize (Hm w).
  destruct (m w) as [[a|e|] w']; simpl in *; try done.
  etrans; [exact Hm | apply Hf].
Qed.

Lemma preserves_try_catch {A} (m : Async A) h :
  preserves R m → (∀ e, preserves R (h e)) → preserves R (try_catch m h).
Proof.
  intros Hm Hh w. unfold try_catch. specialize (Hm w).
  destruct (m w) as [[a|e|] w']; simpl in *; try done.
  etrans; [exact Hm | apply Hh].
Qed.

Lemma preserves_encodeURIComponent s : preserves R (encodeURIComponent s).
Proof.
  unfold encodeURIComponent.
  destruct (uri_encode s); [apply preserves_ret | apply preserves_throw].
Qed.

Lemma preserves_get_prop o k : preserves R (get_prop o k).
Proof. destruct o; first [apply preserves_ret | apply preserves_throw]. Qed.

Lemma preserves_assemble response : preserves R (assemble response).
Proof.
  unfold assemble.
  do 4 (apply preserves_bind; [apply preserves_get_prop | intros ?]).
  apply preserves_ret.
Qed.

Lemma preserves_best_effort_call call :
  preserves R call → preserves R (best_effort_call call).
Proof. intros H w. rewrite best_effort_call_world. apply H. Qed.

(** Every operation inherits what its transport guarantees. *)
Lemma preserves_perform :
  (∀ env m p b, preserves R (request env m p b)) →
  (∀ env file, preserves R (ingestFile env file)) →
  ∀ op env, preserves R (perform op env).
Proof.
  intros Hreq Hing op env.
  destruct op;
    cbv [perform add recall listProjects deleteProject addAlias getAliases
         mergeAliases reinforce get stats recallGrounded lexiconWire
         lexiconInspect lexiconGraph lexiconSynonyms lexiconDelete ingestUrl
         ingestContent jobsStatus retrieveGrounded];
    repeat lazymatch goal with
      | |- preserves _ (request _ _ _ _) => apply Hreq
      | |- preserves _ (ingestFile _ _) => apply Hing
      | |- preserves _ (best_effort_call _) => apply preserves_best_effort_call
      | |- preserves _ (_ ≫= _) => apply preserves_bind; [| intros ?]
      | |- preserves _ (mret _) => apply preserves_ret
      | |- preserves _ (encodeURIComponent _) => apply preserves_encodeURIComponent
      | |- preserves _ (match ?c with Some _ => _ | None => _ end) => destruct c
      | |- preserves _ (if ?b then _ else _) => destruct b
      | |- preserves _ (get_prop _ _) => apply preserves_get_prop
      | |- preserves _ (assemble _) => apply preserves_assemble
      end.
Qed.

End Preservation.

#[local] Instance same_this_preorder : PreOrder same_this.
Proof.
  split; [by intros w |].
  intros w1 w2 w3 H1 H2. unfold same_this in *. congruence.
Qed.

#[local] Instance timers_restored_preorder : PreOrder timers_restored.
Proof.
  split; [by intros w |].
  intros w1 w2 w3 H1 H2 Hw.
  destruct (H1 Hw) as [Hw2 E2]. destruct (H2 Hw2) as [Hw3 E3].
  split; [done | congruence].
Qed.

(** ** Timers running out *)

Lemma expire_armed c w t T :
  timers w !! t = Some T → aborts T = c → c ∈ aborted (expire c w).
Proof.
  intros Ht HT. unfold expire. simpl.
  rewrite decide_False; [set_solver |].
  intros E. apply (map_filter_empty_not_lookup _ _ t T) in E; [done |].
  simpl. unfold armed_against. by rewrite bool_decide_eq_true.
Qed.

Lemma expire_timers c w t :
  timers (expire c w) !! t =
  match timers w !! t with
  | Some T => if decide (aborts T = c) then None else Some T
  | None => None
  end.
Proof.
  unfold expire; simpl. rewrite map_lookup_filter.
  destruct (timers w !! t) as [T|]; simpl; [|done].
  unfold armed_against. case_decide.
  - rewrite option_guard_False; [done|]. simpl. rewrite bool_decide_eq_false. tauto.
  - rewrite option_guard_True; [done|]. simpl. by rewrite bool_decide_eq_false.
Qed.

Lemma expire_this c w : this (expire c w) = this w.
Proof. reflexivity. Qed.

Lemma expire_network c w : network (expire c w) = network w.
Proof. reflexivity. Qed.

Lemma armed_signal_aborted call w :
  fc_signal call = next_controller w →
  fc_signal call ∈ aborted (expire (fc_signal call) (log call (armed w))).
Proof.
  intros E. eapply (expire_armed _ _ (next_timer w)); [apply lookup_insert_eq |].
  by rewrite E.
Qed.

Lemma set_timers_delete_twice t w :
  set_timers (delete t) (set_timers (delete t) w) = set_timers (delete t) w.
Proof. unfold set_timers; simpl. by rewrite delete_delete_eq. Qed.

(** ** The two transports in closed form *)

Ltac run :=
  unfold request, ingestFile, get_this, new_AbortController, setTimeout,
    clearTimeout, fetch, json, throw, try_catch, mbind, Async_bind, mret,
    Async_ret; cbn.

(** The first statements of both transports: a new controller, and a
    timer against it armed with the client's configured [timeout]. *)
Lemma timer_is_armed_with_timeout w :
  (controller ← new_AbortController;
   self ← get_this;
   timeoutId ← setTimeout controller (timeout self);
   mret (controller, timeoutId)) w
  = (Fulfilled (next_controller w, next_timer w), armed w)
  ∧ timers (armed w) !! next_timer w
    = Some {| aborts := next_controller w; delay := timeout (this w) |}.
Proof. split; [reflexivity | apply lookup_insert_eq]. Qed.

Lemma request_eq env m p b w :
  request env m p b w =
  let t := next_timer w in
  let c := next_controller w in
  let sent := log (request_call (this w) c m p b) (armed w) in
  match env with
  | Responds r =>
      (if ok r then
         match body r with
         | Decodes v => Fulfilled v
         | Malformed e => Rejected (wrapped (Foreign e))
         | Stalls => Pending
         end
       else if (status r =? 401)%N then Rejected (CueMapError "Invalid API key")
       else Rejected (CueMapError ("Request failed: " +:+ pretty (status r))),
       set_timers (delete t) sent)
  | Faults e => (Rejected (wrapped (Foreign e)), set_timers (delete t) sent)
  | Unresponsive =>
      (Rejected (wrapped (Foreign AbortError)),
       set_timers (delete t) (expire c sent))
  end.
Proof.
  destruct env as [r|e|]; run.
  - destruct (ok r); cbn.
    + destruct (body r); cbn; by rewrite ?set_timers_delete_twice.
    + destruct (status r =? 401)%N; cbn; by rewrite set_timers_delete_twice.
  - done.
  - fold (armed w). fold (request_call (this w) (next_controller w) m p b).
    by rewrite decide_True by (by apply armed_signal_aborted).
Qed.

Lemma ingestFile_eq env file w :
  ingestFile env file w =
  let t := next_timer w in
  let c := next_controller w in
  let sent := log (ingest_call (this w) c file) (armed w) in
  match env with
  | Responds r =>
      (if ok r then
         match body r with
         | Decodes v => Fulfilled v
         | Malformed e => Rejected (wrapped (Foreign e))
         | Stalls => Pending
         end
       else Rejected (wrapped (CueMapError ("Request failed: " +:+ pretty (status r)))),
       set_timers (delete t) sent)
  | Faults e => (Rejected (wrapped (Foreign e)), set_timers (delete t) sent)
  | Unresponsive =>
      (Rejected (wrapped (Foreign AbortError)),
       set_timers (delete t) (expire c sent))
  end.
Proof.
  destruct env as [r|e|]; run.
  - destruct (ok r); cbn.
    + destruct (body r); cbn; by rewrite ?set_timers_delete_twice.
    + by rewrite set_timers_delete_twice.
  - done.
  - fold (armed w). fold (ingest_call (this w) (next_controller w) file).
    by rewrite decide_True by (by apply armed_signal_aborted).
Qed.

Lemma encodeURIComponent_eq s w :
  encodeURIComponent s w =
  match uri_encode s with
  | Some encoded => (Fulfilled encoded, w)
  | None => (Rejected URIError, w)
  end.
Proof. unfold encodeURIComponent. by destruct (uri_encode s). Qed.

(** Both transports in one statement, for an operation's wire form. *)
Lemma transport_world op env w :
  (transport op env w).2 =
  match call_of op w with
  | Some call =>
      set_timers (delete (next_timer w))
        (match env with
         | Unresponsive => expire (next_controller w) (log call (armed w))
         | _ => log call (armed w)
         end)
  | None => w
  end.
Proof.
  unfold transport, call_of. destruct (endpoint op) as [m p b|file|e].
  - rewrite request_eq. by destruct env.
  - rewrite ingestFile_eq. by destruct env.
  - reflexivity.
Qed.

(** ** Operations and their transport *)

Ltac unfold_methods :=
  cbv [perform transport endpoint call_of add recall listProjects deleteProject
       addAlias getAliases mergeAliases reinforce get stats recallGrounded
       lexiconWire lexiconInspect lexiconGraph lexiconSynonyms lexiconDelete
       ingestUrl ingestContent jobsStatus retrieveGrounded best_effort
       default] in *.

(** The three methods that encode a cue are their transport: the
    encoding comes first, and its [URIError] is not caught. *)
Lemma encoded_cue_methods env w :
  (∀ cue, getAliases env cue w = transport (GetAliases cue) env w)
  ∧ (∀ cue, lexiconInspect env cue w = transport (LexiconInspect cue) env w)
  ∧ (∀ cue, lexiconSynonyms env cue w = transport (LexiconSynonyms cue) env w).
Proof.
  unfold getAliases, lexiconInspect, lexiconSynonyms, transport, endpoint.
  split; [| split]; intros cue.
  - destruct cue as [c|]; [destruct (truthy_string c) |]; try reflexivity.
    rewrite !run_bind, encodeURIComponent_eq.
    by destruct (uri_encode c).
  - rewrite run_bind, encodeURIComponent_eq. by destruct (uri_encode cue).
  - rewrite run_bind, encodeURIComponent_eq. by destruct (uri_encode cue).
Qed.

Ltac encoded_cue_method env w :=
  destruct (encoded_cue_methods env w) as (Hga & Hli & Hls);
  cbn [perform]; first [rewrite Hga | rewrite Hli | rewrite Hls].

(** An operation ends in the world in which its transport ends. *)
Lemma perform_world op env w : (perform op env w).2 = (transport op env w).2.
Proof.
  destruct op;
    try (encoded_cue_method env w; reflexivity);
    unfold_methods;
    first [ reflexivity
          | apply best_effort_call_world
          | apply bind_world; intros a w';
            symmetry;
            first [ apply (preserves_get_prop eq)
                  | apply (preserves_ret eq)
                  | apply (preserves_assemble eq) ] ].
Qed.

(** A failed transport: the best-effort operations answer [false], the
    others fail with the transport's error. *)
Lemma perform_rejected op env w e w' :
  transport op env w = (Rejected e, w') →
  perform op env w =
  (if best_effort op then Fulfilled (VBool false) else Rejected e, w').
Proof.
  destruct op;
    try (encoded_cue_method env w; intros H; exact H);
    unfold_methods; intros H;
    first [ exact H
          | exact (best_effort_call_rejected _ _ _ _ H)
          | exact (bind_rejected _ _ _ _ _ H) ].
Qed.

Lemma perform_network op env w :
  network (perform op env w).2 = (network w ++ option_list (call_of op w))%list.
Proof.
  rewrite perform_world, transport_world.
  destruct (call_of op w); [by destruct env | by rewrite app_nil_r].
Qed.

Lemma request_same_this env m p b : preserves same_this (request env m p b).
Proof. intros w. rewrite request_eq. by destruct env. Qed.

Lemma ingestFile_same_this env file : preserves same_this (ingestFile env file).
Proof. intros w. rewrite ingestFile_eq. by destruct env. Qed.


(** From a well-formed world, arming a timer and then clearing it (after
    it fired or not) gives back the timer table. *)
Lemma timers_after_transport env call w :
  wf w →
  timers (set_timers (delete (next_timer w))
            (match env with
             | Unresponsive => expire (next_controller w) (log call (armed w))
             | _ => log call (armed w)
             end)) = timers w.
Proof.
  intros Hw.
  assert (Hfresh : timers w !! next_timer w = None).
  { destruct (timers w !! next_timer w) as [T|] eqn:E; [|done].
    apply Hw in E. lia. }
  assert (Hplain : delete (next_timer w) (timers (log call (armed w))) = timers w).
  { simpl. rewrite delete_insert_eq. by apply delete_id. }
  destruct env; try exact Hplain.
  apply map_eq. intros t. change (timers (set_timers ?f ?w0)) with (f (timers w0)).
  destruct (decide (t = next_timer w)) as [->|Hne].
  - by rewrite lookup_delete_eq, Hfresh.
  - rewrite lookup_delete_ne by done. rewrite expire_timers.
    change (timers (log call (armed w))) with (timers (armed w)).
    unfold armed; cbn [timers]. rewrite lookup_insert_ne by done.
    destruct (timers w !! t) as [T|] eqn:E; [|done].
    rewrite decide_False; [done|]. apply Hw in E. lia.
Qed.

Lemma wf_after_transport (w w' : World) :
  wf w → timers w' = timers w →
  next_timer w' = S (next_timer w) → next_controller w' = S (next_controller w) →
  wf w'.
Proof.
  intros Hw Et En Ec t T H. rewrite Et in H. apply Hw in H. lia.
Qed.

Lemma request_timers_restored env m p b :
  preserves timers_restored (request env m p b).
Proof.
  intros w Hw. rewrite request_eq. cbv zeta.
  pose proof (timers_after_transport env
    (request_call (this w) (next_controller w) m p b) w Hw) as E.
  destruct env; simpl; (split; [| exact E]);
    (apply (wf_after_transport w); [done | exact E | done ..]).
Qed.

Lemma ingestFile_timers_restored env file :
  preserves timers_restored (ingestFile env file).
Proof.
  intros w Hw. rewrite ingestFile_eq. cbv zeta.
  pose proof (timers_after_transport env
    (ingest_call (this w) (next_controller w) file) w Hw) as E.
  destruct env; simpl; (split; [| exact E]);
    (apply (wf_after_transport w); [done | exact E | done ..]).
Qed.



(** ** Error mapping of the two transports *)

Lemma ok_401 b : ok {| status := 401; body := b |} = false.
Proof. reflexivity. Qed.

(** On [request], an error status is mapped as the specification says. *)
Lemma request_error_status r m p b w :
  ok r = false →
  (request (Responds r) m p b w).1 =
  Rejected (CueMapError (if (status r =? 401)%N then "Invalid API key"
                         else "Request failed: " +:+ pretty (status r))).
Proof.
  intros Hok. rewrite request_eq. cbv zeta. cbn [fst]. rewrite Hok.
  by destruct (status r =? 401)%N.
Qed.

(** On [ingestFile], the error for a status is caught by the method's own
    [catch] and wrapped a second time. *)
Lemma ingestFile_error_status r file w :
  ok r = false →
  (ingestFile (Responds r) file w).1 =
  Rejected (CueMapError ("Request failed: CueMapError: Request failed: "
                         +:+ pretty (status r))).
Proof.
  intros Hok. rewrite ingestFile_eq. cbv zeta. cbn [fst]. by rewrite Hok.
Qed.

(** C1 (evaluated at the failing input).  A response with status 401,
    whatever its body: [request] rejects with the fixed message
    ['Invalid API key'], while [ingestFile] has no case for 401 and
    rejects with the doubly wrapped
    ['Request failed: CueMapError: Request failed: 401']. *)
Theorem ingestFile_401_is_not_authentication_error m p b file answer w :
  let r := {| status := 401; body := answer |} in
  (request (Responds r) m p b w).1 = Rejected (CueMapError "Invalid API key")
  ∧ (ingestFile (Responds r) file w).1 =
    Rejected (CueMapError "Request failed: CueMapError: Request failed: 401").
Proof.
  intros r. split.
  - by rewrite request_error_status.
  - by rewrite ingestFile_error_status.
Qed.

(** ** Timeouts *)

Lemma request_rejects_with_CueMapError env m p b w :
  match (request env m p b w).1 with
  | Rejected e => instanceof_CueMapError e = true
  | _ => True
  end.
Proof.
  rewrite request_eq. cbv zeta.
  destruct env as [r|e|]; cbn [fst]; try done.
  destruct (ok r); [by destruct (body r) | by destruct (status r =? 401)%N].
Qed.

Lemma ingestFile_rejects_with_CueMapError env file w :
  match (ingestFile env file w).1 with
  | Rejected e => instanceof_CueMapError e = true
  | _ => True
  end.
Proof.
  rewrite ingestFile_eq. cbv zeta.
  destruct env as [r|e|]; cbn [fst]; try done.
  destruct (ok r); [by destruct (body r) | done].
Qed.

(** *** Kinds of failure *)

Lemma pretty_N_char_digit x : is_digit (pretty_N_char x) = true.
Proof. unfold pretty_N_char. by repeat case_match. Qed.

Lemma pretty_N_go_head x s :
  starts_with_digit s = true → starts_with_digit (pretty_N_go x s) = true.
Proof.
  revert s. induction (N.lt_wf_0 x) as [x _ IH]; intros s Hs.
  assert (x = 0 ∨ 0 < x)%N as [-> | Hx] by lia.
  - by rewrite pretty_N_go_0.
  - rewrite pretty_N_go_step by done. apply IH.
    + by apply N.div_lt.
    + apply pretty_N_char_digit.
Qed.

(** A printed status starts with a digit. *)
Lemma pretty_N_head (n : N) : starts_with_digit (pretty n) = true.
Proof.
  unfold pretty, pretty_N. case_decide as Hn; [done |].
  rewrite pretty_N_go_step by lia.
  apply pretty_N_go_head, pretty_N_char_digit.
Qed.


Lemma prefix_append s t : String.prefix s (s +:+ t) = true.
Proof.
  induction s as [|c s IH]; simpl.
  - by destruct t.
  - destruct (Ascii.ascii_dec c c); [exact IH | done].
Qed.











(** ** Best-effort operations *)

Lemma transport_fails op env w cause :
  cause_of env = Some cause → ∃ e, (transport op env w).1 = Rejected e.
Proof.
  intros Hc. unfold transport.
  destruct (endpoint op) as [m p b|file|e0];
    [rewrite request_eq | rewrite ingestFile_eq | by eexists]; cbv zeta;
    destruct env as [r|e|]; cbn [fst]; eauto; unfold cause_of in Hc;
    destruct (ok r); eauto.
  all: try (destruct (status r =? 401)%N; eauto; fail).
  all: destruct (body r); try discriminate Hc; eauto.
Qed.

(** [request] and [ingestFile] are their [try] block, run once the timer
    is armed, under their [catch] handler. *)
Lemma request_try env m p b w :
  request env m p b w =
  try_catch (request_attempt env m p b (next_controller w) (next_timer w))
    (λ error, clearTimeout (next_timer w);;
              if instanceof_CueMapError error then throw error
              else throw (wrapped error))
    (armed w).
Proof. reflexivity. Qed.

Lemma ingestFile_try env file w :
  ingestFile env file w =
  try_catch
    (ingestFile_attempt env (delete "Content-Type" (getHeaders (this w))) file
       (next_controller w) (next_timer w))
    (λ error, clearTimeout (next_timer w);; throw (wrapped error))
    (armed w).
Proof. reflexivity. Qed.

Lemma ingestFile_attempt_error_status r file headers c t w :
  ok r = false →
  (ingestFile_attempt (Responds r) headers file c t w).1 =
  Rejected (CueMapError ("Request failed: " +:+ pretty (status r))).
Proof. intros Hok. unfold ingestFile_attempt. run. by rewrite Hok. Qed.

Lemma wrapped_status_differs (n : N) :
  wrapped (CueMapError ("Request failed: " +:+ pretty n))
  ≠ CueMapError ("Request failed: " +:+ pretty n).
Proof.
  unfold wrapped.
  change (String_of_thrown (CueMapError ("Request failed: " +:+ pretty n)))
    with ("CueMapError: Request failed: " +:+ pretty n).
  pose proof (pretty_N_head n) as Hd.
  destruct (pretty n) as [|d rest]; [discriminate Hd |].
  intros H. injection H as <- _. discriminate Hd.
Qed.

(** C3.  (1) When the underlying [request] rejects with an error [e], the
    five best-effort operations (reinforce, deleteProject, addAlias,
    mergeAliases, lexiconDelete) resolve to [false], and every other
    operation built on [request] rejects with that same [e].  (2) Inside
    [request], a [CueMapError] raised by the [try] block reaches the
    caller unchanged.  (3) Not so in [ingestFile]: on an error status its
    [try] block raises a [CueMapError], and the caller receives another
    one, the first wrapped into a new message. *)
Theorem errors_propagate_unchanged_except_from_ingestFile :
  (∀ op env m p b w e w',
     endpoint op = Json m p b →
     request env m p b w = (Rejected e, w') →
     perform op env w =
     (if best_effort op then Fulfilled (VBool false) else Rejected e, w'))
  ∧ (∀ env m p b w message w',
       request_attempt env m p b (next_controller w) (next_timer w) (armed w)
       = (Rejected (CueMapError message), w') →
       (request env m p b w).1 = Rejected (CueMapError message))
  ∧ (∀ file r w,
       ok r = false →
       ∃ e, (ingestFile_attempt (Responds r)
               (delete "Content-Type" (getHeaders (this w))) file
               (next_controller w) (next_timer w) (armed w)).1 = Rejected e
            ∧ instanceof_CueMapError e = true
            ∧ (perform (IngestFile file) (Responds r) w).1 = Rejected (wrapped e)
            ∧ wrapped e ≠ e).
Proof.
  split; [| split].
  - intros op env m p b w e w' Hop Hreq. apply perform_rejected.
    unfold transport. by rewrite Hop.
  - intros env m p b w message w' Hrun.
    rewrite request_try. unfold try_catch. by rewrite Hrun.
  - intros file r w Hok.
    exists (CueMapError ("Request failed: " +:+ pretty (status r))).
    split; [by apply ingestFile_attempt_error_status |].
    split; [done |]. split; [| apply wrapped_status_differs].
    change (perform (IngestFile file) (Responds r) w)
      with (ingestFile (Responds r) file w).
    by rewrite ingestFile_error_status.
Qed.

Lemma errors_propagate_unchanged_except_from_ingestFile_witness :
  let w := boot (constructor None) in
  let env := Faults {| err_name := "TypeError"; err_message := "fetch failed" |} in
  let e := CueMapError "Request failed: TypeError: fetch failed" in
  (request env "PATCH" "/memories/m1/reinforce" (VObj {["cues" := VStrs ["deploy"]]}) w).1
  = Rejected e
  ∧ (perform (Reinforce "m1" ["deploy"]) env w).1 = Fulfilled (VBool false)
  ∧ (request env "GET" "/memories/m1" VUndefined w).1 = Rejected e
  ∧ (perform (Get "m1") env w).1 = Rejected e.
Proof.
  intros w env e.
  pose proof (proj1 errors_propagate_unchanged_except_from_ingestFile) as H.
  split; [reflexivity | split; [| split; [reflexivity |]]].
  - by rewrite (H (Reinforce "m1" ["deploy"]) env _ _ _ w e
                  (request env "PATCH" "/memories/m1/reinforce"
                     (VObj {["cues" := VStrs ["deploy"]]}) w).2 eq_refl eq_refl).
  - by rewrite (H (Get "m1") env _ _ _ w e
                  (request env "GET" "/memories/m1" VUndefined w).2 eq_refl eq_refl).
Defined.

(** On the upload, a status of 500 reaches the caller as a
    [CueMapError] about a [CueMapError]. *)
Example ingestFile_status_500 :
  let w := boot (constructor None) in
  let file := {| blob_bytes := "hello" |} in
  let env := Responds {| status := 500; body := Decodes VNull |} in
  (ingestFile_attempt env (delete "Content-Type" (getHeaders (this w))) file
     (next_controller w) (next_timer w) (armed w)).1
  = Rejected (CueMapError "Request failed: 500")
  ∧ (perform (IngestFile file) env w).1
    = Rejected (CueMapError "Request failed: CueMapError: Request failed: 500").
Proof. split; reflexivity. Qed.

(** The five operations are exactly the ones that never reject. *)
Lemma best_effort_never_rejects op env w :
  best_effort op = true →
  (perform op env w).1 = Fulfilled (VBool true)
  ∨ (perform op env w).1 = Fulfilled (VBool false)
  ∨ (perform op env w).1 = Pending.
Proof.
  intros Hb. destruct op; try discriminate Hb; unfold_methods;
    unfold best_effort_call, try_catch; rewrite run_bind;
    match goal with |- context [request ?e ?m ?p ?b ?w] =>
      destruct (request e m p b w) as [[v|err|] w'] end; simpl; auto.
Qed.

(** ** The abort timer *)

(** C4.  From a world whose timer table is well formed, on every exit
    path of [request] and of [ingestFile] (a decoded answer, a malformed
    or stalled body, an error status, a transport fault, a timeout) the
    timer the call started is no longer pending when the call is over,
    and the timer table is the one the call found. *)
Theorem transport_clears_its_timer env m p b file w :
  wf w →
  (timers (request env m p b w).2 !! next_timer w = None
   ∧ timers (request env m p b w).2 = timers w)
  ∧ (timers (ingestFile env file w).2 !! next_timer w = None
     ∧ timers (ingestFile env file w).2 = timers w).
Proof.
  intros Hw.
  assert (Hfresh : timers w !! next_timer w = None).
  { destruct (timers w !! next_timer w) as [T|] eqn:E; [|done].
    apply Hw in E. lia. }
  destruct (request_timers_restored env m p b w Hw) as [_ E1].
  destruct (ingestFile_timers_restored env file w Hw) as [_ E2].
  rewrite E1, E2. done.
Qed.

(** A world in which some other timer is pending. *)
Lemma transport_clears_its_timer_witness :
  let w := {| this := constructor None; next_timer := 1;
              timers := {[ 0 := {| aborts := 0; delay := 5%float |} ]};
              next_controller := 1; aborted := ∅; network := [] |} in
  let file := {| blob_bytes := "hello" |} in
  wf w
  ∧ (timers (request Unresponsive "GET" "/stats" VUndefined w).2 !! 1 = None
     ∧ timers (request Unresponsive "GET" "/stats" VUndefined w).2 = timers w)
  ∧ (timers (ingestFile Unresponsive file w).2 !! 1 = None
     ∧ timers (ingestFile Unresponsive file w).2 = timers w).
Proof.
  intros w file.
  assert (Hw : wf w).
  { intros t T H. unfold w in *. cbn [timers next_timer next_controller] in *.
    apply lookup_singleton_Some in H as [<- <-]. simpl. lia. }
  split; [exact Hw |].
  exact (transport_clears_its_timer Unresponsive "GET" "/stats" VUndefined file w Hw).
Defined.


(** ** Configuration *)

Lemma float_30000_nonzero : 30000%float ≠ 0%float.
Proof.
  intros E. apply (f_equal PrimFloat.is_zero) in E. vm_compute in E. discriminate E.
Qed.

(** C5 (counterexample).  The configuration
    [{ url: '', timeout: 0 }] supplies both values explicitly, and the
    constructed client has the default url and the default timeout, not
    the supplied ones. *)
Lemma falsy_explicit_values_do_not_override :
  let config := {| cfg_url := Some EmptyString; cfg_apiKey := None;
                   cfg_projectId := None; cfg_timeout := Some 0%float |} in
  (url (constructor (Some config)) = "http://localhost:8080"
   ∧ url (constructor (Some config)) ≠ EmptyString)
  ∧ (timeout (constructor (Some config)) = 30000%float
     ∧ timeout (constructor (Some config)) ≠ 0%float).
Proof.
  intros config. split; split.
  - reflexivity.
  - discriminate.
  - reflexivity.
  - exact float_30000_nonzero.
Qed.

(** C5 (as amended).  For every configuration object, and for an omitted
    one: an unset url defaults to [http://localhost:8080] and an unset
    timeout to 30000; a supplied url that is not the empty string and a
    supplied timeout that is not [0], [-0] or [NaN] override the
    defaults, while a supplied empty url or falsy timeout yields the
    default; [apiKey] and [projectId] are copied as they are, so they
    are absent when not supplied. *)
Theorem constructor_resolves_defaults (config : option CueMapConfig) :
  let given := default empty_config config in
  let self := constructor config in
  ((cfg_url given = None → url self = "http://localhost:8080")
   ∧ (∀ u, cfg_url given = Some u → u ≠ EmptyString → url self = u)
   ∧ (cfg_url given = Some EmptyString → url self = "http://localhost:8080"))
  ∧ ((cfg_timeout given = None → timeout self = 30000%float)
     ∧ (∀ t, cfg_timeout given = Some t → truthy_number t = true → timeout self = t)
     ∧ (∀ t, cfg_timeout given = Some t → truthy_number t = false →
             timeout self = 30000%float))
  ∧ (apiKey self = cfg_apiKey given ∧ projectId self = cfg_projectId given)
  ∧ (config = None →
     self = {| url := "http://localhost:8080"; apiKey := None;
               projectId := None; timeout := 30000%float |}).
Proof.
  intros given self. subst self. unfold constructor. fold given.
  split; [| split; [| split]]; cbn [url timeout apiKey projectId].
  - unfold or_string. repeat split.
    + by intros ->.
    + intros u -> Hu. by destruct u.
    + by intros ->.
  - unfold or_number. repeat split.
    + by intros ->.
    + by intros t -> ->.
    + by intros t -> ->.
  - done.
  - intros ->. reflexivity.
Qed.

Lemma constructor_resolves_defaults_witness :
  let config := {| cfg_url := Some "https://cuemap.example"; cfg_apiKey := None;
                   cfg_projectId := Some "sales"; cfg_timeout := Some 5%float |} in
  constructor (Some config) =
    {| url := "https://cuemap.example"; apiKey := None;
       projectId := Some "sales"; timeout := 5%float |}
  ∧ constructor None =
    {| url := "http://localhost:8080"; apiKey := None;
       projectId := None; timeout := 30000%float |}.
Proof.
  intros config.
  destruct (constructor_resolves_defaults (Some config))
    as ((_ & Hu & _) & (_ & Ht & _) & (Hk & Hp) & _).
  destruct (constructor_resolves_defaults None) as (_ & _ & _ & Hnone).
  split; [| exact (Hnone eq_refl)].
  specialize (Hu "https://cuemap.example" eq_refl ltac:(discriminate)).
  specialize (Ht 5%float eq_refl eq_refl).
  destruct (constructor (Some config)) as [u k p t]. simpl in *.
  by subst.
Defined.

(** ** Context immutability *)

Lemma perform_same_this op env : preserves same_this (perform op env).
Proof.
  apply preserves_perform; [apply _ | |].
  - apply request_same_this.
  - apply ingestFile_same_this.
Qed.

(** C9.  No operation assigns to [url], [apiKey], [projectId] or
    [timeout]: after any sequence of operations, whatever the remote does
    to each, the client's fields are those it had before, and for a fresh
    client those the constructor gave it. *)
Theorem context_is_never_mutated ops :
  (∀ w, this (session ops w) = this w)
  ∧ (∀ config, this (session ops (boot (constructor config))) = constructor config).
Proof.
  assert (H : ∀ w, this (session ops w) = this w).
  { induction ops as [|[op env] rest IH]; intros w; simpl; [done |].
    rewrite IH. apply perform_same_this. }
  split; [exact H | intros config; by rewrite H].
Qed.

(** ** Grounding assembly *)

Lemma get_prop_object props k w :
  get_prop (VObj props) k w = (Fulfilled (default VUndefined (props !! k)), w).
Proof. reflexivity. Qed.

Lemma ok_200 b : ok {| status := 200; body := b |} = true.
Proof. reflexivity. Qed.

Lemma response_verified_context r w :
  get_prop (RecallGroundedResponse_value r) "verified_context" w
  = (Fulfilled (VStr (verified_context r)), w).
Proof.
  unfold RecallGroundedResponse_value. by rewrite get_prop_object, lookup_insert_eq.
Qed.

Lemma response_proof r w :
  get_prop (RecallGroundedResponse_value r) "proof" w
  = (Fulfilled (GroundingProof_value (proof r)), w).
Proof.
  unfold RecallGroundedResponse_value. rewrite get_prop_object.
  rewrite lookup_insert_ne by done. by rewrite lookup_insert_eq.
Qed.

Lemma proof_selected p w :
  get_prop (GroundingProof_value p) "selected" w
  = (Fulfilled (VArr (SelectedItem_value <$> selected p)), w).
Proof.
  unfold GroundingProof_value. rewrite get_prop_object.
  rewrite !lookup_insert_ne by done. by rewrite lookup_insert_eq.
Qed.

(** C6.  For a response of the declared [RecallGroundedResponse] shape,
    the object [retrieveGrounded] builds has [verified_context_block]
    equal to the response's [verified_context], [grounding_proof] equal
    to its [proof] and [selected_memories] equal to [proof.selected],
    each value unchanged; building it leaves the world as it is, and it
    is what [retrieveGrounded] resolves to when the engine answers 200
    with that response. *)
Theorem retrieveGrounded_is_a_projection (r : RecallGroundedResponse)
    queryText tokenBudget limit projects disablePatternCompletion w :
  let artifact :=
    VObj (<["verified_context_block" := VStr (verified_context r)]>
         (<["grounding_proof" := GroundingProof_value (proof r)]>
         {["selected_memories" := VArr (SelectedItem_value <$> selected (proof r))]})) in
  assemble (RecallGroundedResponse_value r) w = (Fulfilled artifact, w)
  ∧ (retrieveGrounded
       (Responds {| status := 200; body := Decodes (RecallGroundedResponse_value r) |})
       queryText tokenBudget limit projects disablePatternCompletion w).1
    = Fulfilled artifact.
Proof.
  intros artifact.
  assert (H : ∀ w', assemble (RecallGroundedResponse_value r) w' = (Fulfilled artifact, w')).
  { intros w'. unfold assemble.
    rewrite run_bind, response_verified_context.
    rewrite run_bind, response_proof.
    rewrite run_bind, response_proof.
    rewrite run_bind, proof_selected. reflexivity. }
  split; [apply H |].
  unfold retrieveGrounded, recallGrounded. rewrite run_bind, request_eq.
  cbv zeta. rewrite ok_200. cbn [body]. cbv beta iota. by rewrite H.
Qed.

(** ** The body of [recall] *)

Lemma bind_ret {A} (m : Async A) w : (m ≫= λ a, mret a) w = m w.
Proof. rewrite run_bind. by destruct (m w) as [[a|e|] w']. Qed.

(** [recall] is its [request]: nothing is checked or raised around it. *)
Lemma recall_is_its_request env q cues projects limit ar mi ex dpc dsb dsc w :
  recall env q cues projects limit ar mi ex dpc dsb dsc w =
  request env "POST" "/recall"
    (VObj (recall_payload q cues projects (default 10%float limit)
             (default false ar) mi (default false ex) (default false dpc)
             (default false dsb) (default false dsc))) w.
Proof. unfold recall. apply bind_ret. Qed.

Lemma recall_payload_lookup q cues projects limit ar mi ex dpc dsb dsc :
  let payload := recall_payload q cues projects limit ar mi ex dpc dsb dsc in
  (payload !! "limit" = Some (VNum limit)
   ∧ payload !! "auto_reinforce" = Some (VBool ar)
   ∧ payload !! "explain" = Some (VBool ex))
  ∧ (payload !! "disable_pattern_completion" = Some (VBool dpc)
     ∧ payload !! "disable_salience_bias" = Some (VBool dsb)
     ∧ payload !! "disable_systems_consolidation" = Some (VBool dsc)
     ∧ payload !! "disable_temporal_chunking" = None)
  ∧ (payload !! "cues" = (VStrs <$> cues)
     ∧ payload !! "query_text" =
       match q with
       | Some s => if truthy_string s then Some (VStr s) else None
       | None => None
       end
     ∧ payload !! "min_intersection" = (VNum <$> mi)
     ∧ payload !! "projects" = (VStrs <$> projects)).
Proof.
  intros payload. subst payload. unfold recall_payload.
  destruct cues, q as [s|], mi, projects; try destruct (truthy_string s);
    repeat split; reflexivity.
Qed.

Lemma recall_payload_disable_flags q cues projects limit ar mi ex dpc dsb dsc :
  size (disable_flags_in (recall_payload q cues projects limit ar mi ex dpc dsb dsc)) = 3.
Proof.
  unfold recall_payload, disable_flags_in.
  destruct cues, q as [s|], mi, projects; try destruct (truthy_string s);
    vm_compute; reflexivity.
Qed.

Lemma recall_network env q cues projects limit ar mi ex dpc dsb dsc w :
  network (recall env q cues projects limit ar mi ex dpc dsb dsc w).2 =
  (network w ++
   [ {| fc_url := url (this w) +:+ "/recall";
        fc_method := "POST";
        fc_headers := getHeaders (this w);
        fc_body :=
          Some (JsonText
            (VObj (recall_payload q cues projects (default 10%float limit)
                     (default false ar) mi (default false ex)
                     (default false dpc) (default false dsb)
                     (default false dsc))));
        fc_signal := next_controller w |} ])%list.
Proof.
  exact (perform_network (Recall q cues projects limit ar mi ex dpc dsb dsc) env w).
Qed.

(** C7 (counterexample).  The body of
    [recall(undefined, ['meeting','john'], undefined, 10)] does not carry
    the four disable flags of the SDK: [disable_temporal_chunking] (a
    parameter of [add] only) is not in it, and exactly three of its keys
    are disable flags. *)
Lemma recall_body_has_three_disable_flags :
  let payload :=
    recall_payload None (Some ["meeting"; "john"]) None 10%float false None
      false false false false in
  ¬ (∀ flag, flag ∈ sdk_disable_flags → is_Some (payload !! flag))
  ∧ size (disable_flags_in payload) = 3.
Proof.
  intros payload. split; [| apply recall_payload_disable_flags].
  intros H. destruct (H "disable_temporal_chunking") as [v Hv].
  - unfold sdk_disable_flags. set_solver.
  - vm_compute in Hv. discriminate Hv.
Qed.

(** C7 (as amended).  [recall(undefined, ['meeting','john'], undefined,
    10)] sends to [POST /recall] a body with [cues] equal to
    [['meeting','john']], no [query_text] key and [limit] equal to 10;
    and on every [recall] call the three disable flags
    ([disable_pattern_completion], [disable_salience_bias],
    [disable_systems_consolidation]) are in the body with the value
    passed, [false] when the argument is omitted. *)
Theorem recall_body_scenario_and_flags env w :
  (∃ payload,
     network (recall env None (Some ["meeting"; "john"]) None (Some 10%float)
                None None None None None None w).2
     = (network w ++
        [ {| fc_url := url (this w) +:+ "/recall"; fc_method := "POST";
             fc_headers := getHeaders (this w);
             fc_body := Some (JsonText (VObj payload));
             fc_signal := next_controller w |} ])%list
     ∧ payload !! "cues" = Some (VArr [VStr "meeting"; VStr "john"])
     ∧ payload !! "query_text" = None
     ∧ payload !! "limit" = Some (VNum 10%float)
     ∧ payload !! "disable_pattern_completion" = Some (VBool false)
     ∧ payload !! "disable_salience_bias" = Some (VBool false)
     ∧ payload !! "disable_systems_consolidation" = Some (VBool false))
  ∧ (∀ q cues projects limit ar mi ex dpc dsb dsc,
     ∃ payload,
       network (recall env q cues projects limit ar mi ex dpc dsb dsc w).2
       = (network w ++
          [ {| fc_url := url (this w) +:+ "/recall"; fc_method := "POST";
               fc_headers := getHeaders (this w);
               fc_body := Some (JsonText (VObj payload));
               fc_signal := next_controller w |} ])%list
       ∧ payload !! "disable_pattern_completion" = Some (VBool (default false dpc))
       ∧ payload !! "disable_salience_bias" = Some (VBool (default false dsb))
       ∧ payload !! "disable_systems_consolidation" = Some (VBool (default false dsc))
       ∧ size (disable_flags_in payload) = 3).
Proof.
  split.
  - eexists. split; [apply recall_network |].
    repeat split; reflexivity.
  - intros q cues projects limit ar mi ex dpc dsb dsc.
    eexists. split; [apply recall_network |].
    destruct (recall_payload_lookup q cues projects (default 10%float limit)
                (default false ar) mi (default false ex) (default false dpc)
                (default false dsb) (default false dsc))
      as (_ & (H1 & H2 & H3 & _) & _).
    repeat split; try done. apply recall_payload_disable_flags.
Qed.

(** C10.  Whatever its arguments, [recall] raises nothing of its own: it
    behaves as its one [request], which is sent to [POST /recall] with
    the payload as JSON body.  The payload has [query_text] only for a
    non-empty [queryText] (so not for [undefined] nor for the empty
    string) and [cues] only when [cues] is given; in particular the
    request goes out with neither when both are missing, and a decoded
    answer is returned as it is. *)
Theorem recall_validates_nothing env q cues projects limit ar mi ex dpc dsb dsc w :
  ∃ payload,
    recall env q cues projects limit ar mi ex dpc dsb dsc w
    = request env "POST" "/recall" (VObj payload) w
    ∧ network (recall env q cues projects limit ar mi ex dpc dsb dsc w).2
      = (network w ++
         [ {| fc_url := url (this w) +:+ "/recall"; fc_method := "POST";
              fc_headers := getHeaders (this w);
              fc_body := Some (JsonText (VObj payload));
              fc_signal := next_controller w |} ])%list
    ∧ payload !! "query_text" =
      match q with
      | None => None
      | Some EmptyString => None
      | Some s => Some (VStr s)
      end
    ∧ payload !! "cues" =
      match cues with
      | None => None
      | Some cs => Some (VArr (VStr <$> cs))
      end
    ∧ ∀ v, (recall (Responds {| status := 200; body := Decodes v |})
              q cues projects limit ar mi ex dpc dsb dsc w).1 = Fulfilled v.
Proof.
  eexists. split; [apply recall_is_its_request |].
  split; [apply recall_network |].
  destruct (recall_payload_lookup q cues projects (default 10%float limit)
              (default false ar) mi (default false ex) (default false dpc)
              (default false dsb) (default false dsc))
    as (_ & _ & (Hc & Hq & _)).
  split; [| split].
  - rewrite Hq. by destruct q as [[|]|].
  - rewrite Hc. by destruct cues.
  - intros v. rewrite recall_is_its_request, request_eq. cbv zeta.
    by rewrite ok_200.
Qed.

(** ** Headers *)

Lemma getHeaders_lookup self :
  getHeaders self !! "Content-Type" = Some "application/json"
  ∧ getHeaders self !! "X-API-Key" =
    match apiKey self with
    | Some k => if truthy_string k then Some k else None
    | None => None
    end
  ∧ getHeaders self !! "X-Project-ID" =
    match projectId self with
    | Some p => if truthy_string p then Some p else None
    | None => None
    end.
Proof.
  unfold getHeaders.
  destruct (apiKey self) as [k|], (projectId self) as [p|];
    try destruct (truthy_string k); try destruct (truthy_string p);
    repeat split; reflexivity.
Qed.

Lemma nonempty_lookup (o : option string) (x : string) :
  match o with
  | Some s => if truthy_string s then Some s else None
  | None => None
  end = Some x ↔ o = Some x ∧ x ≠ EmptyString.
Proof.
  destruct o as [[|c s]|]; simpl; split; try (intros [? ?]); try intros ?;
    simplify_eq; try done.
Qed.

(** The empty string as API key is no key: [getHeaders] sends no
    [X-API-Key] header for it, rather than an empty one. *)
Lemma empty_api_key_is_not_sent :
  let self := constructor (Some {| cfg_url := None; cfg_apiKey := Some EmptyString;
                                   cfg_projectId := None; cfg_timeout := None |}) in
  getHeaders self !! "X-API-Key" = None.
Proof. reflexivity. Qed.

Lemma call_of_headers op w call key :
  call_of op w = Some call → key ≠ "Content-Type" →
  fc_headers call !! key = getHeaders (this w) !! key.
Proof.
  unfold call_of. intros Hcall Hkey.
  destruct (endpoint op); simplify_eq; simpl; [done | by rewrite lookup_delete_ne].
Qed.

Lemma call_of_content_type op w call :
  call_of op w = Some call →
  fc_headers call !! "Content-Type" =
  match op with
  | IngestFile _ => None
  | _ => Some "application/json"
  end.
Proof.
  destruct (getHeaders_lookup (this w)) as (Hct & _).
  unfold call_of. intros Hcall.
  destruct op; simpl in Hcall; try (injection Hcall as <-; exact Hct).
  - destruct cue as [c|]; [destruct (truthy_string c); [destruct (uri_encode c) |] |];
      simplify_eq; exact Hct.
  - destruct (uri_encode cue); simplify_eq; exact Hct.
  - destruct (uri_encode cue); simplify_eq; exact Hct.
  - injection Hcall as <-. apply lookup_delete_eq.
Qed.

(** C8.  The requests an operation sends are the ones of [call_of].  On
    every request sent, the [X-API-Key] header is present exactly when
    the client has an API key (a non-empty one), with that key as value,
    and is absent otherwise, never sent empty; likewise [X-Project-ID]
    for the project id.  [Content-Type] is [application/json] on every
    request but the upload of [ingestFile], where it is absent; that
    upload is a request like the others (the two headers above are as on
    the JSON path), and when its timer runs out its controller is aborted
    and it rejects with the error a JSON request rejects with. *)
Theorem headers_of_every_request op env file w :
  network (perform op env w).2 = (network w ++ option_list (call_of op w))%list
  ∧ (∀ call, call_of op w = Some call →
       (∀ k, fc_headers call !! "X-API-Key" = Some k
             ↔ apiKey (this w) = Some k ∧ k ≠ EmptyString)
       ∧ (∀ p, fc_headers call !! "X-Project-ID" = Some p
               ↔ projectId (this w) = Some p ∧ p ≠ EmptyString)
       ∧ fc_headers call !! "Content-Type" =
         match op with
         | IngestFile _ => None
         | _ => Some "application/json"
         end)
  ∧ call_of (IngestFile file) w = Some (ingest_call (this w) (next_controller w) file)
  ∧ (∀ m p b, (ingestFile Unresponsive file w).1 = (request Unresponsive m p b w).1)
  ∧ next_controller w ∈ aborted (ingestFile Unresponsive file w).2.
Proof.
  split; [apply perform_network |]. split; [| split; [done | split]].
  - intros call Hcall.
    destruct (getHeaders_lookup (this w)) as (_ & Hk & Hp).
    split; [| split].
    + intros k. rewrite (call_of_headers op w call) by done.
      rewrite Hk. apply nonempty_lookup.
    + intros p. rewrite (call_of_headers op w call) by done.
      rewrite Hp. apply nonempty_lookup.
    + by apply (call_of_content_type op w).
  - intros m p b. by rewrite ingestFile_eq, request_eq.
  - rewrite ingestFile_eq. cbv zeta. cbn [snd].
    apply (armed_signal_aborted (ingest_call (this w) (next_controller w) file)).
    reflexivity.
Qed.

(** * Further properties of the client *)

(** ** When a transport fulfils, hangs or rejects *)

Lemma ok_range r : ok r = true ↔ (200 ≤ status r ≤ 299)%N.
Proof. unfold ok. rewrite andb_true_iff, !N.leb_le. tauto. Qed.

(** X1.  [request] and [ingestFile] resolve with a value exactly when
    the engine answers with a status from 200 to 299 and a body that
    decodes as JSON to that value. *)
Theorem transport_fulfils_exactly_on_decoded_2xx env m p b file w v :
  ((request env m p b w).1 = Fulfilled v
   ↔ ∃ r, env = Responds r ∧ (200 ≤ status r ≤ 299)%N ∧ body r = Decodes v)
  ∧ ((ingestFile env file w).1 = Fulfilled v
     ↔ ∃ r, env = Responds r ∧ (200 ≤ status r ≤ 299)%N ∧ body r = Decodes v).
Proof.
  rewrite request_eq, ingestFile_eq. cbv zeta.
  split; (split; [| intros (r & -> & Hr & Hb)]).
  - destruct env as [r|e|]; cbn [fst]; try discriminate.
    destruct (ok r) eqn:Hok.
    + destruct (body r) eqn:Hb; try discriminate. intros [= ->].
      exists r. by rewrite <- ok_range.
    + by destruct (status r =? 401)%N.
  - cbn [fst]. apply ok_range in Hr. by rewrite Hr, Hb.
  - destruct env as [r|e|]; cbn [fst]; try discriminate.
    destruct (ok r) eqn:Hok; [| discriminate].
    destruct (body r) eqn:Hb; try discriminate. intros [= ->].
    exists r. by rewrite <- ok_range.
  - cbn [fst]. apply ok_range in Hr. by rewrite Hr, Hb.
Qed.

(** ** Every operation in terms of its transport *)

Lemma get_prop_member o k w : get_prop o k w = (member o k, w).
Proof. by destruct o. Qed.

Lemma assemble_assembled response w :
  assemble response w = (assembled response, w).
Proof.
  unfold assembled, assemble.
  rewrite !run_bind, !get_prop_member.
  destruct (member response "verified_context") as [vc| |]; try reflexivity.
  rewrite !run_bind, !get_prop_member.
  destruct (member response "proof") as [pr| |] eqn:Hp; try reflexivity.
  rewrite !run_bind, !get_prop_member, !Hp.
  rewrite !run_bind, !get_prop_member.
  by destruct (member pr "selected").
Qed.

Lemma perform_finish op env w :
  perform op env w = (finish op (transport op env w).1, (transport op env w).2).
Proof.
  destruct (transport op env w) as [[v|e|] w'] eqn:Ht; cbn [fst snd].
  - destruct op; try (encoded_cue_method env w; exact Ht);
      unfold finish; unfold_methods;
      first [ exact Ht
            | exact (best_effort_call_fulfilled _ _ _ _ Ht)
            | rewrite (bind_fulfilled _ _ _ _ _ Ht);
              first [ apply get_prop_member | apply assemble_assembled | reflexivity ] ].
  - by apply perform_rejected.
  - destruct op; try (encoded_cue_method env w; exact Ht);
      unfold finish; unfold_methods;
      first [ exact Ht
            | unfold best_effort_call, try_catch;
              by rewrite (bind_pending _ _ _ _ Ht)
            | by rewrite (bind_pending _ _ _ _ Ht) ].
Qed.

Lemma transport_result op env w :
  (transport op env w).1 =
  match endpoint op with
  | Throws e => Rejected e
  | sent => answer_of sent env
  end.
Proof.
  unfold transport. destruct (endpoint op);
    [rewrite request_eq | rewrite ingestFile_eq | reflexivity]; by destruct env.
Qed.

Lemma answer_of_fulfilled sent env v :
  answer_of sent env = Fulfilled v
  ↔ ∃ r, env = Responds r ∧ (200 ≤ status r ≤ 299)%N ∧ body r = Decodes v.
Proof.
  unfold answer_of. split.
  - destruct env as [r|e|]; try discriminate.
    destruct (ok r) eqn:Hok.
    + destruct (body r) eqn:Hb; try discriminate. intros [= ->].
      exists r. by rewrite <- ok_range.
    + destruct sent; [by destruct (status r =? 401)%N | discriminate
                     | by destruct (status r =? 401)%N].
  - intros (r & -> & Hr & Hb). apply ok_range in Hr. by rewrite Hr, Hb.
Qed.


Lemma best_effort_endpoint op :
  best_effort op = true → ∃ m p b, endpoint op = Json m p b.
Proof. destruct op; try discriminate; intros _; cbn [endpoint]; eauto. Qed.






(** ** What the operations make of an answer *)

(** X3.  A best-effort operation resolves to [true] exactly when the
    engine answers 2xx with a body that decodes as JSON: the body is
    always decoded, so a 2xx answer without a JSON body (a 204 with an
    empty body, say) makes the operation resolve to [false]. *)
Theorem best_effort_true_needs_a_json_body op env w :
  best_effort op = true →
  ((perform op env w).1 = Fulfilled (VBool true)
   ↔ ∃ r v, env = Responds r ∧ (200 ≤ status r ≤ 299)%N ∧ body r = Decodes v)
  ∧ (∀ r e, env = Responds r → (200 ≤ status r ≤ 299)%N → body r = Malformed e →
            (perform op env w).1 = Fulfilled (VBool false)).
Proof.
  intros Hb. rewrite perform_finish. cbn [fst]. rewrite transport_result.
  destruct (best_effort_endpoint op Hb) as (m & p & b & ->).
  unfold finish. rewrite Hb. split; [split |].
  - destruct (answer_of (Json m p b) env) as [v| |] eqn:Ha; try discriminate.
    intros _. apply answer_of_fulfilled in Ha as (r & ? & ? & ?). by exists r, v.
  - intros (r & v & Hv). by rewrite (proj2 (answer_of_fulfilled (Json m p b) env v))
      by (by exists r).
  - intros r e -> Hr Hbody. unfold answer_of. apply ok_range in Hr.
    by rewrite Hr, Hbody.
Qed.

Lemma best_effort_true_needs_a_json_body_witness :
  let w := boot (constructor None) in
  let no_content :=
    Responds {| status := 204;
                body := Malformed {| err_name := "SyntaxError";
                                     err_message := "Unexpected end of JSON input" |} |} in
  best_effort (DeleteProject "sales") = true
  ∧ (perform (DeleteProject "sales") no_content w).1 = Fulfilled (VBool false).
Proof.
  intros w no_content. split; [reflexivity |].
  destruct (best_effort_true_needs_a_json_body (DeleteProject "sales") no_content w eq_refl)
    as [_ H].
  eapply (H _ _ eq_refl); [split; by vm_compute | reflexivity].
Defined.

(** X4.  The operations other than [add], [retrieveGrounded] and the
    five best-effort ones, when they send a request, resolve to the
    decoded answer as it is, whatever JSON value it is: nothing checks
    its shape. *)
Theorem decoded_answer_is_passed_through op r v w :
  passes_through op = true → sends_request op = true →
  (200 ≤ status r ≤ 299)%N → body r = Decodes v →
  (perform op (Responds r) w).1 = Fulfilled v.
Proof.
  intros Hp Hs Hr Hb. rewrite perform_finish. cbn [fst]. rewrite transport_result.
  assert (Ha : ∀ sent, answer_of sent (Responds r) = Fulfilled v).
  { intros sent. apply answer_of_fulfilled. by exists r. }
  unfold sends_request in Hs.
  destruct (endpoint op); try discriminate Hs; rewrite Ha; unfold finish;
    by destruct op.
Qed.

Lemma decoded_answer_is_passed_through_witness :
  passes_through (LexiconInspect "new york") = true
  ∧ sends_request (LexiconInspect "new york") = true
  ∧ (perform (LexiconInspect "new york")
       (Responds {| status := 200; body := Decodes VNull |})
       (boot (constructor None))).1 = Fulfilled VNull.
Proof.
  split; [reflexivity | split; [reflexivity |]].
  apply decoded_answer_is_passed_through;
    [reflexivity | reflexivity | split; by vm_compute | reflexivity].
Defined.

(** X5.  On a decoded 2xx answer [add] resolves to the answer's [id]
    property: [undefined] when the answer is an object without [id] or
    is not an object, and a rejection with the [TypeError] of the
    property read (not a [CueMapError]) when the answer is [null]. *)
Theorem add_resolves_to_the_id_property r v content cues metadata dtc w :
  (200 ≤ status r ≤ 299)%N → body r = Decodes v →
  (add (Responds r) content cues metadata dtc w).1 =
  match v with
  | VObj props => Fulfilled (default VUndefined (props !! "id"))
  | VNull => Rejected (TypeError "Cannot read properties of null (reading 'id')")
  | VUndefined =>
      Rejected (TypeError "Cannot read properties of undefined (reading 'id')")
  | _ => Fulfilled VUndefined
  end.
Proof.
  intros Hr Hb.
  change (add (Responds r) content cues metadata dtc w)
    with (perform (Add content cues metadata dtc) (Responds r) w).
  rewrite perform_finish. cbn [fst]. rewrite transport_result.
  cbn [endpoint]. unfold answer_of.
  apply ok_range in Hr. rewrite Hr, Hb. unfold finish. cbn [best_effort].
  by destruct v.
Qed.

Lemma add_resolves_to_the_id_property_witness :
  (add (Responds {| status := 201; body := Decodes (VObj {[ "ok" := VBool true ]}) |})
       "content" [] None None (boot (constructor None))).1 = Fulfilled VUndefined.
Proof.
  rewrite (add_resolves_to_the_id_property
             {| status := 201; body := Decodes (VObj {[ "ok" := VBool true ]}) |}
             (VObj {[ "ok" := VBool true ]}));
    [reflexivity | split; by vm_compute | reflexivity].
Defined.

Lemma transport_rejects_with_CueMapError op env w e :
  sends_request op = true →
  (transport op env w).1 = Rejected e → instanceof_CueMapError e = true.
Proof.
  unfold transport, sends_request.
  destruct (endpoint op) as [m p b|file|e0]; intros Hs; try discriminate Hs.
  - pose proof (request_rejects_with_CueMapError env m p b w) as H.
    intros E. by rewrite E in H.
  - pose proof (ingestFile_rejects_with_CueMapError env file w) as H.
    intros E. by rewrite E in H.
Qed.

Lemma endpoint_throws_URIError op e : endpoint op = Throws e → e = URIError.
Proof.
  destruct op; cbn [endpoint]; try discriminate.
  - destruct cue as [c|]; [destruct (truthy_string c); [destruct (uri_encode c) |] |];
      congruence.
  - destruct (uri_encode cue); congruence.
  - destruct (uri_encode cue); congruence.
Qed.

(** An operation that sends no request rejects with the [URIError] of
    the encoding, and leaves the world as it was. *)
Lemma perform_without_request op env w :
  sends_request op = false → perform op env w = (Rejected URIError, w).
Proof.
  intros Hs.
  assert (Ht : transport op env w = (Rejected URIError, w)).
  { unfold transport. unfold sends_request in Hs.
    destruct (endpoint op) as [| |e] eqn:He; try discriminate Hs.
    by rewrite (endpoint_throws_URIError op e He). }
  rewrite (perform_rejected _ _ _ _ _ Ht).
  destruct (best_effort op) eqn:Hb; [| done].
  destruct (best_effort_endpoint op Hb) as (m & p & b & He).
  unfold sends_request in Hs. by rewrite He in Hs.
Qed.

(** X6.  An operation rejects with an error that is not a
    [CueMapError] in two cases only.  Either it is [add] or
    [retrieveGrounded] and the engine answered 2xx with a decodable
    body: the property reads on the answer are outside [request]'s
    [try].  Or it is one of the operations that encode a cue and the cue
    has no encoding: the error is the [URIError] of
    [encodeURIComponent], raised before [request] is called, and nothing
    is sent.  Every other failure is a [CueMapError]. *)
Theorem raw_errors_have_two_origins op env w e :
  (perform op env w).1 = Rejected e → instanceof_CueMapError e = false →
  (reads_answer op = true
   ∧ ∃ r v, env = Responds r ∧ (200 ≤ status r ≤ 299)%N ∧ body r = Decodes v)
  ∨ (sends_request op = false ∧ e = URIError ∧ (perform op env w).2 = w).
Proof.
  destruct (sends_request op) eqn:Hs.
  - rewrite perform_finish. cbn [fst].
    destruct (transport op env w).1 as [v| e'|] eqn:Ht; unfold finish.
    + intros H He. left.
      assert (reads_answer op = true) as Hop.
      { destruct (best_effort op); [discriminate |]. destruct op; try done; congruence. }
      split; [done |].
      rewrite transport_result in Ht. unfold sends_request in Hs.
      destruct (endpoint op) eqn:Hep; try discriminate Hs;
        apply answer_of_fulfilled in Ht as (r & ? & ? & ?); by exists r, v.
    + destruct (best_effort op); [discriminate |].
      intros [= ->] He. apply transport_rejects_with_CueMapError in Ht; congruence.
    + discriminate.
  - rewrite perform_without_request by done. intros [= <-] _. by right.
Qed.

Lemma raw_errors_have_two_origins_witness :
  let env := Responds {| status := 200; body := Decodes VNull |} in
  let w := boot (constructor None) in
  ((reads_answer (Add "content" ["cue1"] None None) = true
    ∧ ∃ r v, env = Responds r ∧ (200 ≤ status r ≤ 299)%N ∧ body r = Decodes v)
   ∨ (sends_request (Add "content" ["cue1"] None None) = false
      ∧ TypeError "Cannot read properties of null (reading 'id')" = URIError
      ∧ (perform (Add "content" ["cue1"] None None) env w).2 = w))
  ∧ ((reads_answer (LexiconInspect lone_surrogate) = true
      ∧ ∃ r v, env = Responds r ∧ (200 ≤ status r ≤ 299)%N ∧ body r = Decodes v)
     ∨ (sends_request (LexiconInspect lone_surrogate) = false
        ∧ URIError = URIError
        ∧ (perform (LexiconInspect lone_surrogate) env w).2 = w)).
Proof.
  intros env w. split.
  - apply (raw_errors_have_two_origins (Add "content" ["cue1"] None None) env w
             (TypeError "Cannot read properties of null (reading 'id')"));
      reflexivity.
  - apply (raw_errors_have_two_origins (LexiconInspect lone_surrogate) env w URIError);
      reflexivity.
Defined.

(** ** Grounded recall on arbitrary answers *)

(** X7.  [retrieveGrounded] reads what is there: on an answer that is an
    object whose [proof] is an object, the artifact has the answer's
    [verified_context], its [proof], and the proof's [selected], each
    [undefined] when missing; on an answer without [proof] it rejects
    with the [TypeError] of reading [selected] of [undefined]. *)
Theorem assemble_reads_what_is_there props w :
  (∀ pp, props !! "proof" = Some (VObj pp) →
     assemble (VObj props) w =
     (Fulfilled
        (VObj (<["verified_context_block" :=
                   default VUndefined (props !! "verified_context")]>
              (<["grounding_proof" := VObj pp]>
              {["selected_memories" := default VUndefined (pp !! "selected")]}))),
      w))
  ∧ (props !! "proof" = None →
     assemble (VObj props) w =
     (Rejected (TypeError "Cannot read properties of undefined (reading 'selected')"),
      w)).
Proof.
  split; [intros pp Hp | intros Hp]; unfold assemble;
    rewrite run_bind, get_prop_object; cbv beta iota;
    rewrite run_bind, get_prop_object, Hp; cbv beta iota;
    rewrite run_bind, get_prop_object, Hp; reflexivity.
Qed.

Lemma assemble_reads_what_is_there_witness :
  let w := boot (constructor None) in
  assemble (VObj {[ "proof" := VObj ∅ ]}) w =
    (Fulfilled
       (VObj (<["verified_context_block" := VUndefined]>
             (<["grounding_proof" := VObj ∅]>
             {["selected_memories" := VUndefined]}))), w)
  ∧ assemble (VObj {[ "verified_context" := VStr "ctx" ]}) w =
    (Rejected (TypeError "Cannot read properties of undefined (reading 'selected')"),
     w).
Proof.
  intros w. split.
  - destruct (assemble_reads_what_is_there {[ "proof" := VObj ∅ ]} w) as [H _].
    exact (H ∅ eq_refl).
  - destruct (assemble_reads_what_is_there {[ "verified_context" := VStr "ctx" ]} w)
      as [_ H].
    exact (H eq_refl).
Defined.

(** ** Request bodies *)

Lemma recallGrounded_payload_lookup q tb limit projects dpc dsb dsc :
  let payload := recallGrounded_payload q tb limit projects dpc dsb dsc in
  payload !! "query_text" = Some (VStr q)
  ∧ payload !! "token_budget" = Some (VNum tb)
  ∧ payload !! "limit" = Some (VNum limit)
  ∧ payload !! "disable_pattern_completion" = Some (VBool dpc)
  ∧ payload !! "disable_salience_bias" = Some (VBool dsb)
  ∧ payload !! "disable_systems_consolidation" = Some (VBool dsc)
  ∧ payload !! "projects" = (VStrs <$> projects).
Proof.
  intros payload. subst payload. unfold recallGrounded_payload.
  destruct projects; repeat split; reflexivity.
Qed.

(** X8.  Whatever its arguments, [retrieveGrounded] sends one
    [POST /recall/grounded] whose body always has [query_text] (the empty
    string included), [token_budget] (500 when omitted) and [limit] (10
    when omitted), and in which [disable_salience_bias] and
    [disable_systems_consolidation] are always [false]: the method has no
    parameter for them. *)
Theorem retrieveGrounded_body env q tb limit projects dpc w :
  ∃ payload,
    network (retrieveGrounded env q tb limit projects dpc w).2
    = (network w ++
       [ {| fc_url := url (this w) +:+ "/recall/grounded"; fc_method := "POST";
            fc_headers := getHeaders (this w);
            fc_body := Some (JsonText (VObj payload));
            fc_signal := next_controller w |} ])%list
    ∧ payload !! "query_text" = Some (VStr q)
    ∧ payload !! "token_budget" = Some (VNum (default 500%float tb))
    ∧ payload !! "limit" = Some (VNum (default 10%float limit))
    ∧ payload !! "disable_pattern_completion" = Some (VBool (default false dpc))
    ∧ payload !! "disable_salience_bias" = Some (VBool false)
    ∧ payload !! "disable_systems_consolidation" = Some (VBool false)
    ∧ payload !! "projects" = (VStrs <$> projects).
Proof.
  eexists. split.
  - exact (perform_network (RetrieveGrounded q tb limit projects dpc) env w).
  - apply recallGrounded_payload_lookup.
Qed.

(** X9.  The keys of a [recall] body are the six fixed ones, [cues] when
    [cues] is given (the empty list included), [query_text] when
    [queryText] is a non-empty string, [min_intersection] when
    [minIntersection] is given (0 included) and [projects] when
    [projects] is given (the empty list included), and no other. *)
Theorem recall_body_keys q cues projects limit ar mi ex dpc dsb dsc :
  dom (recall_payload q cues projects limit ar mi ex dpc dsb dsc) =
  ({[ "limit"; "auto_reinforce"; "explain"; "disable_pattern_completion";
      "disable_salience_bias"; "disable_systems_consolidation" ]}
   ∪ (if cues is Some _ then {[ "cues" ]} else ∅)
   ∪ (match q with
      | Some s => if truthy_string s then {[ "query_text" ]} else ∅
      | None => ∅
      end)
   ∪ (if mi is Some _ then {[ "min_intersection" ]} else ∅)
   ∪ (if projects is Some _ then {[ "projects" ]} else ∅) : gset string).
Proof.
  unfold recall_payload.
  destruct cues, q as [s|], mi, projects; try destruct (truthy_string s);
    rewrite ?dom_insert_L, ?dom_singleton_L; set_solver.
Qed.

(** ** Sessions *)

Lemma perform_counters op env w :
  next_timer (perform op env w).2
  = (if sends_request op then S (next_timer w) else next_timer w)
  ∧ next_controller (perform op env w).2
    = (if sends_request op then S (next_controller w) else next_controller w).
Proof.
  rewrite perform_world, transport_world. unfold call_of, sends_request.
  destruct (endpoint op); by destruct env.
Qed.

Lemma session_this ops w : this (session ops w) = this w.
Proof.
  revert w. induction ops as [|[op env] rest IH]; intros w; simpl; [done |].
  rewrite IH. apply perform_same_this.
Qed.




Lemma expire_aborted c w t T :
  timers w !! t = Some T → aborts T = c → aborted (expire c w) = {[c]} ∪ aborted w.
Proof.
  intros Ht HT. unfold expire. simpl.
  rewrite decide_False; [done |].
  intros E. apply (map_filter_empty_not_lookup _ _ t T) in E; [done |].
  simpl. unfold armed_against. by rewrite bool_decide_eq_true.
Qed.

Lemma perform_aborted op env w :
  aborted (perform op env w).2 =
  if sends_request op && timed_out env
  then {[next_controller w]} ∪ aborted w else aborted w.
Proof.
  rewrite perform_world, transport_world. unfold call_of, sends_request.
  destruct (endpoint op); [| | reflexivity]; (destruct env; try reflexivity);
    change (aborted (set_timers ?f ?w0)) with (aborted w0);
    rewrite (expire_aborted _ _ (next_timer w)
               {| aborts := next_controller w; delay := timeout (this w) |});
    try done; apply lookup_insert_eq.
Qed.

Lemma session_aborted ops w i :
  i ∈ aborted (session ops w)
  ↔ i ∈ aborted w
    ∨ ∃ j op, i = next_controller w + j ∧ sending ops !! j = Some (op, Unresponsive).
Proof.
  revert w. induction ops as [|[op env] rest IH]; intros w; simpl.
  - split; [by left | intros [H | (j & op & _ & H)]; [exact H | discriminate H]].
  - rewrite IH, perform_aborted. destruct (perform_counters op env w) as [_ ->].
    destruct (sends_request op); cbn [andb].
    + split.
      * intros [H | (j & op' & -> & Hj)].
        -- destruct env; simpl in H; auto.
           apply elem_of_union in H as [H | H]; [| auto].
           apply elem_of_singleton in H as ->.
           right. exists 0, op. split; [lia | done].
        -- right. exists (S j), op'. split; [lia | done].
      * intros [H | (j & op' & -> & Hj)].
        -- left. destruct env; simpl; try exact H. apply elem_of_union. by right.
        -- destruct j as [|j]; simpl in Hj.
           ++ injection Hj as -> ->. left. simpl. rewrite Nat.add_0_r.
              apply elem_of_union. left. by apply elem_of_singleton.
           ++ right. exists j, op'. split; [lia | done].
    + done.
Qed.

(** X11.  Timing out is per call.  From any world, an operation aborts
    at most the controller it has just created, and it does so exactly
    when it sends a request that the remote leaves unanswered; no other
    controller is touched.  Hence, in a session of a fresh client, whose
    operations are issued one after the other, the [i]-th request's
    controller has been aborted exactly when the [i]-th operation that
    sent a request is one the remote left unanswered. *)
Theorem only_unanswered_calls_are_aborted op env w ops c i :
  aborted (perform op env w).2
  = (if sends_request op && timed_out env
     then {[next_controller w]} ∪ aborted w else aborted w)
  ∧ (i ∈ aborted (session ops (boot c))
     ↔ ∃ op', sending ops !! i = Some (op', Unresponsive)).
Proof.
  split; [apply perform_aborted |].
  rewrite session_aborted. simpl. split.
  - intros [H | (j & op' & -> & Hj)]; [set_solver | eauto].
  - intros (op' & H). right. eauto.
Qed.

(** X12.  The client keeps no state between calls: after any session,
    an operation settles as it would have on the untouched world, and
    the request it sends, if it sends one, has the same URL, method,
    headers and body. *)
Theorem operations_do_not_depend_on_history ops op env w :
  let unsigned (call : FetchCall) :=
    (fc_url call, fc_method call, fc_headers call, fc_body call) in
  (perform op env (session ops w)).1 = (perform op env w).1
  ∧ unsigned <$> call_of op (session ops w) = unsigned <$> call_of op w
  ∧ network (perform op env (session ops w)).2
    = (network (session ops w) ++ option_list (call_of op (session ops w)))%list.
Proof.
  intros unsigned. split; [| split].
  - rewrite !perform_finish. cbn [fst]. by rewrite !transport_result.
  - unfold call_of. rewrite session_this. by destruct (endpoint op).
  - apply perform_network.
Qed.

(** ** URLs *)

(** X13.  Every request of a session goes to the address the client was
    constructed with: the URL of each [fetch] starts with the client's
    [url], and its credential headers are those of the client. *)
Theorem session_talks_only_to_the_configured_url ops c :
  Forall (λ call,
            String.prefix (url c) (fc_url call) = true
            ∧ fc_headers call !! "X-API-Key" = getHeaders c !! "X-API-Key"
            ∧ fc_headers call !! "X-Project-ID" = getHeaders c !! "X-Project-ID")
         (network (session ops (boot c))).
Proof.
  assert (H : ∀ w, this w = c →
    Forall (λ call,
              String.prefix (url c) (fc_url call) = true
              ∧ fc_headers call !! "X-API-Key" = getHeaders c !! "X-API-Key"
              ∧ fc_headers call !! "X-Project-ID" = getHeaders c !! "X-Project-ID")
           (network w) →
    Forall (λ call,
              String.prefix (url c) (fc_url call) = true
              ∧ fc_headers call !! "X-API-Key" = getHeaders c !! "X-API-Key"
              ∧ fc_headers call !! "X-Project-ID" = getHeaders c !! "X-Project-ID")
           (network (session ops w))).
  { induction ops as [|[op env] rest IH]; intros w Hc Hw; simpl; [done |].
    apply IH.
    - rewrite <- Hc. apply perform_same_this.
    - rewrite perform_network. apply Forall_app. split; [done |].
      unfold call_of. rewrite Hc.
      destruct (endpoint op); cbn [option_list]; [| | apply Forall_nil_2];
        apply Forall_singleton;
        cbn [fc_url fc_headers request_call ingest_call].
      + split; [apply prefix_append | done].
      + split; [apply prefix_append |].
        by rewrite !lookup_delete_ne. }
  apply H; [done | apply Forall_nil_2].
Qed.

(** ** Cues in a path *)



(** ** Headers and error messages *)

(** X16.  [getHeaders] builds [Content-Type] and at most the two
    credential headers, nothing else, and never a header with an empty
    value. *)
Theorem getHeaders_has_three_headers_at_most self :
  map_Forall (λ name v,
                (name = "Content-Type" ∨ name = "X-API-Key" ∨ name = "X-Project-ID")
                ∧ v ≠ EmptyString)
             (getHeaders self)
  ∧ (size (getHeaders self) ≤ 3)%nat.
Proof.
  unfold getHeaders.
  destruct (apiKey self) as [[|a k]|], (projectId self) as [[|b p]|];
    cbn [truthy_string]; (split; [| vm_compute; lia]);
    repeat (apply map_Forall_insert_2; [split; [tauto | discriminate] |]);
    apply map_Forall_empty.
Qed.

(** X17.  The messages of the errors a transport rejects with: on
    [request], ['Invalid API key'] exactly for an answer with status 401
    and otherwise ['Request failed: '] followed by the status or by the
    text of the underlying error; on [ingestFile], always
    ['Request failed: '] followed by such a text. *)
Theorem transport_error_messages env m p b file w :
  match (request env m p b w).1 with
  | Rejected e =>
      (e = CueMapError "Invalid API key" ∧ ∃ r, env = Responds r ∧ status r = 401%N)
      ∨ (∃ detail, e = CueMapError ("Request failed: " +:+ detail)
                   ∧ ∀ r, env = Responds r → status r ≠ 401%N)
  | _ => True
  end
  ∧ match (ingestFile env file w).1 with
    | Rejected e => ∃ detail, e = CueMapError ("Request failed: " +:+ detail)
    | _ => True
    end.
Proof.
  rewrite request_eq, ingestFile_eq. cbv zeta.
  destruct env as [r|e|]; cbn [fst].
  - destruct (ok r) eqn:Hok.
    + destruct (body r); try done. split; [right | ]; eauto.
      eexists. split; [reflexivity |]. intros r' [= <-] H401.
      apply ok_range in Hok. lia.
    + split; [| unfold wrapped; eauto].
      destruct (status r =? 401)%N eqn:E.
      * left. apply N.eqb_eq in E. eauto.
      * right. apply N.eqb_neq in E. eexists. split; [reflexivity |].
        by intros r' [= <-].
  - split; [right; eexists; split; [reflexivity | discriminate] | unfold wrapped; eauto].
  - split; [right; eexists; split; [reflexivity | discriminate] | unfold wrapped; eauto].
Qed.

(** ** The earlier version of [add] and [recall] *)

(** X19.  On a decoded 2xx answer the earlier [recall] resolves to the
    answer's [results] property ([undefined] when there is none, a raw
    [TypeError] on [null]), where the present [recall] resolves to the
    whole answer. *)
Theorem earlier_recall_returns_results r v cues limit ar mi projects w :
  (200 ≤ status r ≤ 299)%N → body r = Decodes v →
  (V05.recall (Responds r) cues limit ar mi projects w).1 =
    match v with
    | VObj props => Fulfilled (default VUndefined (props !! "results"))
    | VNull => Rejected (TypeError "Cannot read properties of null (reading 'results')")
    | VUndefined =>
        Rejected (TypeError "Cannot read properties of undefined (reading 'results')")
    | _ => Fulfilled VUndefined
    end
  ∧ (recall (Responds r) None (Some cues) projects limit ar mi None None None None w).1
    = Fulfilled v.
Proof.
  intros Hr Hb. apply ok_range in Hr. split.
  - unfold V05.recall. rewrite run_bind, request_eq. cbv zeta. rewrite Hr, Hb.
    by destruct v.
  - rewrite recall_is_its_request, request_eq. cbv zeta. by rewrite Hr, Hb.
Qed.

Lemma earlier_recall_returns_results_witness :
  let answer := VObj {[ "results" := VArr [] ]} in
  let r := {| status := 200; body := Decodes answer |} in
  (V05.recall (Responds r) ["meeting"] None None None None (boot (constructor None))).1
    = Fulfilled (VArr [])
  ∧ (recall (Responds r) None (Some ["meeting"]) None None None None None None None None
       (boot (constructor None))).1 = Fulfilled answer.
Proof.
  intros answer r.
  apply (earlier_recall_returns_results r answer); [split; by vm_compute | reflexivity].
Defined.

(** X20.  A request has a body exactly when its method is not [GET] or
    [DELETE]; [Content-Type: application/json] is sent all the same on
    the [GET] and [DELETE] requests, which have none. *)
Theorem bodiless_requests_still_declare_json op env w :
  network (perform op env w).2 = (network w ++ option_list (call_of op w))%list
  ∧ ∀ call, call_of op w = Some call →
      (fc_body call = None
       ↔ fc_method call = "GET" ∨ fc_method call = "DELETE")
      ∧ (fc_body call = None
         → fc_headers call !! "Content-Type" = Some "application/json").
Proof.
  split; [apply perform_network |].
  destruct (getHeaders_lookup (this w)) as (Hct & _).
  unfold call_of. intros call Hcall.
  assert (Hget : ∀ path,
    call = request_call (this w) (next_controller w) "GET" path VUndefined →
    (fc_body call = None ↔ fc_method call = "GET" ∨ fc_method call = "DELETE")
    ∧ (fc_body call = None → fc_headers call !! "Content-Type" = Some "application/json")).
  { intros path ->. split; [split; auto | intros _; exact Hct]. }
  destruct op; cbn [endpoint] in Hcall;
    try (injection Hcall as <-; cbn;
         (split; [split; [intros H; try discriminate H; auto
                         | intros [H | H]; try discriminate H; reflexivity]
                 | intros H; try discriminate H; exact Hct]); fail).
  - destruct cue as [c|]; [destruct (truthy_string c); [destruct (uri_encode c) |] |];
      simplify_eq; by eapply Hget.
  - destruct (uri_encode cue); simplify_eq; by eapply Hget.
  - destruct (uri_encode cue); simplify_eq; by eapply Hget.
Qed.
